(** * Metadata filtering for Amazon Bedrock agents: the Method 2 filter builder

    A shallow embedding of the Python cells of
    [agent_with_metadata_filtering.ipynb] that hold logic of their own:

    - the Pydantic models [Entity] and [ExtractedEntities] with the
      pre-validator [remove_duplicates];
    - [extract_entities], which reads the tool call out of a model reply;
    - [construct_metadata_filter], which turns the first extracted entity
      into an [andAll] filter.

    Python values are modelled at their declared types ([Optional[str]] is
    [option string], [List[Entity]] is [list Entity]).  Code that can raise
    runs in a small state-and-exception monad over a [world] made of the
    heap of list objects the builder allocates and the log of requests sent
    to the model endpoint.

    Strings are byte strings: a Python [str] is its UTF-8 encoding, on which
    equality and the lexicographic order agree with Python's. *)

From stdpp Require Import gmap strings list sorting pretty.

Set Warnings "-register-all,-clear-no-such-hyp".

(** ** Data model *)

(** [class Entity(BaseModel)]: three [Optional[str]] attributes. *)
Record Entity := mkEntity {
  employee_name : option string;
  document_type : option string;
  role : option string
}.

(** [class ExtractedEntities(BaseModel)]: [entities: List[Entity]]. *)
Record ExtractedEntities := mkExtractedEntities {
  entities : list Entity
}.

(** The filter dictionaries handed to the knowledge base:
    [{"equals": {"key": k, "value": v}}] and [{"andAll": [...]}]. *)
Inductive FilterExpression :=
| Equals (key value : string)
| AndAll (conjuncts : list FilterExpression).

#[global] Instance Entity_eq_dec : EqDecision Entity.
Proof. solve_decision. Defined.

(** ** Worlds, outcomes and the execution monad *)

(** Addresses of Python list objects. *)
Definition loc := nat.

(** One step of the location of a validation error, as in
    [("entities", 0, "role")]. *)
Inductive loc_item :=
| Field (name : string)
| Index (i : nat).

(** The exceptions the modelled statements can raise. *)
Inductive exn :=
| AttributeError   (* attribute access on an object that lacks it *)
| IndexError       (* list index out of range *)
| TypeError        (* unhashable value looked up in a set *)
| ValidationError (errors : list (list loc_item)).
                   (* pydantic: the locations of all fields that failed *)

Inductive outcome (A : Type) :=
| Returns (a : A)
| Raises (e : exn).
Arguments Returns {A} a.
Arguments Raises {A} e.

(** The state outside a call: the list objects alive on the heap and the
    texts sent so far to the model endpoint ([converse]). *)
Record world := mkWorld {
  heap : gmap loc (list FilterExpression);
  requests : list string
}.

Definition M (A : Type) : Type := world → outcome A * world.

Definition ret {A} (a : A) : M A := λ w, (Returns a, w).

Definition bind {A B} (m : M A) (k : A → M B) : M B :=
  λ w, match m w with
       | (Returns a, w') => k a w'
       | (Raises e, w') => (Raises e, w')
       end.

Definition raise {A} (e : exn) : M A := λ w, (Raises e, w).

Declare Scope py_scope.
Delimit Scope py_scope with py.
Notation "x <~ m ;; k" := (bind m (λ x, k))
  (at level 100, m at next level, right associativity) : py_scope.
Notation "m ;;; k" := (bind m (λ _, k))
  (at level 100, right associativity) : py_scope.
Local Open Scope py_scope.

(** [[]]: a fresh empty list object. *)
Definition new_list : M loc :=
  λ w, let l := fresh (dom (heap w)) in
       (Returns l, mkWorld (<[l := []]> (heap w)) (requests w)).

(** [lst.append(x)]. *)
Definition append (l : loc) (x : FilterExpression) : M unit :=
  λ w, match heap w !! l with
       | Some xs => (Returns (), mkWorld (<[l := xs ++ [x]]> (heap w)) (requests w))
       | None => (Raises AttributeError, w)
       end.

(** Reading the elements of a list object. *)
Definition load (l : loc) : M (list FilterExpression) :=
  λ w, match heap w !! l with
       | Some xs => (Returns xs, w)
       | None => (Raises AttributeError, w)
       end.

(** ** Python primitives used by the builder *)

(** Truth value of an [Optional[ExtractedEntities]]: [None] is falsy, a
    model instance (no [__bool__], no [__len__]) is truthy. *)
Definition truthy_obj {A} (x : option A) : bool :=
  match x with Some _ => true | None => false end.

(** Truth value of a list: non-empty. *)
Definition truthy_list {A} (l : list A) : bool :=
  match l with [] => false | _ :: _ => true end.

(** Truth value of a [str]: non-empty. *)
Definition truthy_str (s : string) : bool :=
  negb (String.eqb s "").

(** [a != b] on strings. *)
Definition str_ne (a b : string) : bool := negb (String.eqb a b).

(** [x.entities]: raises on [None]. *)
Definition attr_entities (x : option ExtractedEntities) : M (list Entity) :=
  match x with
  | Some e => ret (entities e)
  | None => raise AttributeError
  end.

(** [lst[i]]: raises past the end. *)
Definition getitem {A} (l : list A) (i : nat) : M A :=
  match l !! i with
  | Some a => ret a
  | None => raise IndexError
  end.

(** [a or b] in a condition: [b] is evaluated only when [a] is false. *)
Definition py_or (a : M bool) (b : M bool) : M bool :=
  x <~ a ;; if x then ret true else b.

(** ** [construct_metadata_filter] *)

(** One guarded append,
    [if field and field != "unknown": andAll.append({"equals": ...})].
    [None] is falsy, so the guard fails before the comparison. *)
Definition append_if_known (and_all : loc) (key : string)
    (field : option string) : M unit :=
  match field with
  | Some v =>
      if truthy_str v && str_ne v "unknown"
      then append and_all (Equals key v)
      else ret ()
  | None => ret ()
  end.

Definition construct_metadata_filter
    (extracted_entities : option ExtractedEntities)
    : M (option FilterExpression) :=
  stop <~ py_or (ret (negb (truthy_obj extracted_entities)))
                (es <~ attr_entities extracted_entities ;;
                 ret (negb (truthy_list es))) ;;
  if stop then ret None else
  es <~ attr_entities extracted_entities ;;
  entity <~ getitem es 0 ;;
  and_all <~ new_list ;;
  append_if_known and_all "employee_name" (employee_name entity) ;;;
  append_if_known and_all "document_type" (document_type entity) ;;;
  append_if_known and_all "role" (role entity) ;;;
  conjuncts <~ load and_all ;;
  ret (if truthy_list conjuncts then Some (AndAll conjuncts) else None).

(** ** Python dictionaries *)

(** A [dict] with [str] keys is the list of its items in insertion order.
    The keys of a dictionary are pairwise distinct ([dict_wf]). *)
Definition pydict (V : Type) : Type := list (string * V).

Definition dict_wf {V} (d : pydict V) : Prop := NoDup d.*1.

(** Equality of dictionaries, [d1 == d2]: the same items, in any order. *)
Definition same_fields {V} (d1 d2 : pydict V) : Prop := d1 ≡ₚ d2.

(** The order [sorted] puts items in.  Python compares the pairs
    lexicographically; the keys of one dictionary differ pairwise, so the
    comparison is settled by the keys and never reaches the values. *)
Definition item_le {V} (a b : string * V) : Prop := String.leb a.1 b.1.

#[global] Instance item_le_dec {V} : RelDecision (@item_le V).
Proof. intros a b. unfold item_le. apply _. Defined.

Section dict_ops.
Context {V : Type}.

(** [d.get(k)]. *)
Fixpoint dict_get (d : pydict V) (k : string) : option V :=
  match d with
  | [] => None
  | (k', v) :: d' => if decide (k' = k) then Some v else dict_get d' k
  end.

(** [d[k] = v]: an existing key keeps its place, a new key goes last. *)
Fixpoint dict_set (d : pydict V) (k : string) (v : V) : pydict V :=
  match d with
  | [] => [(k, v)]
  | (k', v') :: d' =>
      if decide (k' = k) then (k, v) :: d' else (k', v') :: dict_set d' k v
  end.

(** [dict(items)]. *)
Definition dict_of_items (its : list (string * V)) : pydict V :=
  fold_left (λ d it, dict_set d it.1 it.2) its [].

(** [tuple(sorted(d.items()))]. *)
Definition sorted_items (d : pydict V) : list (string * V) :=
  merge_sort item_le d.
End dict_ops.

(** ** [ExtractedEntities.remove_duplicates]

    The validator runs on the raw records, before they become [Entity]
    objects.  [V] is the type of the raw field values and [hashable] tells
    which of them Python can hash; membership in [seen] hashes the tuple,
    hence all of its values. *)
Section remove_duplicates.
Context {V : Type} `{Countable V} (hashable : V → bool).

Definition tuple_hashable (t : list (string * V)) : bool :=
  forallb (λ it, hashable it.2) t.

(** The [for] loop, with its two local variables passed along. *)
Fixpoint remove_duplicates_loop (entities : list (pydict V))
    (unique_entities : list (pydict V))
    (seen : gset (list (string * V))) : outcome (list (pydict V)) :=
  match entities with
  | [] => Returns unique_entities
  | entity :: rest =>
      let entity_tuple := sorted_items entity in
      if tuple_hashable entity_tuple then
        if decide (entity_tuple ∉ seen) then
          remove_duplicates_loop rest
            (unique_entities ++ [dict_of_items entity_tuple])
            ({[entity_tuple]} ∪ seen)
        else remove_duplicates_loop rest unique_entities seen
      else Raises TypeError
  end.

Definition remove_duplicates (entities : list (pydict V))
    : outcome (list (pydict V)) :=
  remove_duplicates_loop entities [] ∅.
End remove_duplicates.

(** ** Raw extractor output and its validation

    The tool input the model returns is JSON.  A field value is a string,
    [null], an integer, an array or an object; of the last two only the type
    is kept, since every path below rejects them unread.  Booleans and
    fractional numbers are left out. *)
Inductive raw :=
| RNull
| RStr (s : string)
| RNum (n : Z)
| RList
| RDict.

#[global] Instance raw_eq_dec : EqDecision raw.
Proof. solve_decision. Defined.

#[global] Instance raw_countable : Countable raw.
Proof.
  refine (inj_countable'
    (λ r, match r with
          | RNull => inl (inl ())
          | RStr s => inl (inr s)
          | RNum n => inr (inl n)
          | RList => inr (inr true)
          | RDict => inr (inr false)
          end)
    (λ x, match x with
          | inl (inl ()) => RNull
          | inl (inr s) => RStr s
          | inr (inl n) => RNum n
          | inr (inr true) => RList
          | inr (inr false) => RDict
          end) _).
  by intros [].
Defined.

(** [list] and [dict] objects have no hash. *)
Definition raw_hashable (v : raw) : bool :=
  match v with
  | RList | RDict => false
  | _ => true
  end.

(** The notebook installs pydantic without a version; the two major
    versions validate [Entity] differently and both run this code. *)
Inductive pydantic_version := V1 | V2.

(** [str(n)] on an integer: Python (the notebook runs 3.13) refuses to
    write more than 4300 digits and raises [ValueError]. *)
Definition max_str_digits : nat := 4300.

Definition int_str (n : Z) : option string :=
  if decide (String.length (pretty (Z.abs n)) ≤ max_str_digits)
  then Some (pretty n)
  else None.

(** Validation of a [str]: version 1 turns a number into its decimal text
    with [str] and reports the [ValueError] of an overlong one as a failure
    of the field; version 2 accepts strings only. *)
Definition str_validator (ver : pydantic_version) (v : raw) : option string :=
  match v with
  | RStr s => Some s
  | RNum n => match ver with V1 => int_str n | V2 => None end
  | RNull | RList | RDict => None
  end.

(** One [Optional[str]] attribute without default, read from a raw record:
    [None] is accepted as it is; a missing key is [None] in version 1 and an
    error in version 2.  The result is [None] when validation fails. *)
Definition validate_optional_str (ver : pydantic_version) (d : pydict raw)
    (name : string) : option (option string) :=
  match dict_get d name with
  | None => match ver with V1 => Some None | V2 => None end
  | Some RNull => Some None
  | Some v => Some <$> str_validator ver v
  end.

Definition field_error {A} (name : string) (r : option A) : list (list loc_item) :=
  match r with
  | Some _ => []
  | None => [[Field name]]
  end.

(** [Entity.parse_obj(d)]: the three declared attributes are validated in
    order and all failures are reported; [Entity] declares no [Config], so
    any other key of [d] is ignored. *)
Definition validate_entity (ver : pydantic_version) (d : pydict raw)
    : list (list loc_item) + Entity :=
  let n := validate_optional_str ver d "employee_name" in
  let t := validate_optional_str ver d "document_type" in
  let r := validate_optional_str ver d "role" in
  match n, t, r with
  | Some n', Some t', Some r' => inr (mkEntity n' t' r')
  | _, _, _ =>
      inl (field_error "employee_name" n
           ++ field_error "document_type" t
           ++ field_error "role" r)
  end.

(** Validation of [List[Entity]] from index [i] on: the entities that
    passed and the locations of the failures. *)
Fixpoint validate_entities (ver : pydantic_version) (i : nat)
    (l : list (pydict raw)) : list (list loc_item) * list Entity :=
  match l with
  | [] => ([], [])
  | d :: l' =>
      let (errs, es) := validate_entities ver (S i) l' in
      match validate_entity ver d with
      | inr e => (errs, e :: es)
      | inl locs => (((λ loc, Field "entities" :: Index i :: loc) <$> locs) ++ errs, es)
      end
  end.

(** [ExtractedEntities.parse_obj(obj)].  The pre-validator runs first, on
    the raw list.  Version 1 reports a [TypeError] raised by a validator as
    a validation error of the field; version 2 lets it through. *)
Definition parse_obj (ver : pydantic_version)
    (obj : pydict (list (pydict raw))) : outcome ExtractedEntities :=
  match dict_get obj "entities" with
  | None => Raises (ValidationError [[Field "entities"]])
  | Some raw_entities =>
      match remove_duplicates raw_hashable raw_entities with
      | Raises TypeError =>
          match ver with
          | V1 => Raises (ValidationError [[Field "entities"]])
          | V2 => Raises TypeError
          end
      | Raises e => Raises e
      | Returns unique_entities =>
          match validate_entities ver 0 unique_entities with
          | ([], es) => Returns (mkExtractedEntities es)
          | (errs, _) => Raises (ValidationError errs)
          end
      end
  end.

(** ** [extract_entities] *)

(** One element of [response["output"]["message"]["content"]]. *)
Record ToolUse := mkToolUse {
  tool_name : string;
  tool_input : pydict (list (pydict raw))
}.

Inductive ContentBlock :=
| TextBlock (text : string)
| ToolUseBlock (toolUse : ToolUse).

(** [bedrock_runtime_client.converse(...)]: the request is sent, the
    endpoint [model] answers. *)
Definition converse (model : string → list ContentBlock) (text : string)
    : M (list ContentBlock) :=
  λ w, (Returns (model text), mkWorld (heap w) (requests w ++ [text])).

(** The [for ... break] loop: the input of the first [extract_entities]
    tool call. *)
Fixpoint find_tool_input (content : list ContentBlock)
    : option (pydict (list (pydict raw))) :=
  match content with
  | [] => None
  | ToolUseBlock t :: rest =>
      if String.eqb (tool_name t) "extract_entities"
      then Some (tool_input t)
      else find_tool_input rest
  | TextBlock _ :: rest => find_tool_input rest
  end.

Definition lift {A} (o : outcome A) : M A := λ w, (o, w).

(** An empty tool input is falsy, like [None]: nothing is parsed. *)
Definition extract_entities (ver : pydantic_version)
    (model : string → list ContentBlock) (text : string)
    : M (option ExtractedEntities) :=
  content <~ converse model text ;;
  match find_tool_input content with
  | Some json_entities =>
      if truthy_list json_entities
      then (parsed <~ lift (parse_obj ver json_entities) ;; ret (Some parsed))
      else ret None
  | None => ret None
  end.

(** ** The builder, run

    What a call returns and what it leaves behind.  [known_value] is the
    guard of one field, [qualifying_leaves] the leaves of one entity in the
    order the three [if] statements run, [filter_of] the returned value. *)

Definition known_value (field : option string) : option string :=
  match field with
  | Some v => if truthy_str v && str_ne v "unknown" then Some v else None
  | None => None
  end.

Definition leaf (key : string) (field : option string) : list FilterExpression :=
  match known_value field with
  | Some v => [Equals key v]
  | None => []
  end.

Definition qualifying_leaves (e : Entity) : list FilterExpression :=
  leaf "employee_name" (employee_name e)
  ++ leaf "document_type" (document_type e)
  ++ leaf "role" (role e).

Definition filter_of (x : option ExtractedEntities) : option FilterExpression :=
  match x with
  | None => None
  | Some ee =>
      match entities ee with
      | [] => None
      | e :: _ =>
          match qualifying_leaves e with
          | [] => None
          | l => Some (AndAll l)
          end
      end
  end.

(** The heap of [w'] agrees with the heap of [w] on every object of [w]. *)
Definition heap_preserved (w w' : world) : Prop :=
  ∀ l, l ∈ dom (heap w) → heap w' !! l = heap w !! l.

(** ** Deduplication, as the data model words it

    A record is kept when no record before it in the input has the same
    fields; the records kept stay in input order. *)

#[global] Instance same_fields_dec {V} `{EqDecision V} : RelDecision (@same_fields V).
Proof. intros d1 d2. unfold same_fields. apply _. Defined.

(** Every value of the record can be hashed. *)
Definition values_hashable {V} (hashable : V → bool) (d : pydict V) : Prop :=
  Forall (λ it, hashable it.2 = true) d.

Section first_occurrences.
Context {V : Type} `{EqDecision V}.

Fixpoint first_occurrences (earlier l : list (pydict V)) : list (pydict V) :=
  match l with
  | [] => []
  | d :: l' =>
      if decide (Exists (same_fields d) earlier)
      then first_occurrences (earlier ++ [d]) l'
      else d :: first_occurrences (earlier ++ [d]) l'
  end.
End first_occurrences.

(** ** Vocabulary of the claims about the builder *)

(** The sub-expressions of a returned filter; none when no filter is
    returned. *)
Definition conjuncts_of (out : option FilterExpression) : list FilterExpression :=
  match out with
  | None => []
  | Some (AndAll ls) => ls
  | Some (Equals k v) => [Equals k v]
  end.

(** The sub-expressions of the filter a call returns. *)
Definition built_leaves (x : option ExtractedEntities) (w : world)
    : list FilterExpression :=
  match (construct_metadata_filter x w).1 with
  | Returns out => conjuncts_of out
  | Raises _ => []
  end.

Definition leaf_key (f : FilterExpression) : option string :=
  match f with
  | Equals k _ => Some k
  | AndAll _ => None
  end.

(** The three recognised fields, in the order of the specification. *)
Definition field_order : list string :=
  ["employee_name"; "document_type"; "role"].

Definition fields_of (e : Entity) : list (string * option string) :=
  [("employee_name", employee_name e);
   ("document_type", document_type e);
   ("role", role e)].

(** A value qualifies when it is neither empty nor the sentinel. *)
Definition qualifies (v : string) : Prop := v ≠ "" ∧ v ≠ "unknown".

#[global] Instance qualifies_dec v : Decision (qualifies v).
Proof. unfold qualifies. apply _. Defined.

(** The fields of [e] that are present with a qualifying value, in field
    order. *)
Definition qualifying_fields (e : Entity) : list (string * string) :=
  omap (λ kf, match kf.2 with
              | Some v => if decide (qualifies v) then Some (kf.1, v) else None
              | None => None
              end) (fields_of e).

(** The fields of [e] that are present and not the sentinel: the reading
    that counts an empty string as a value. *)
Definition present_known_fields (e : Entity) : list (string * string) :=
  omap (λ kf, match kf.2 with
              | Some v => if decide (v ≠ "unknown") then Some (kf.1, v) else None
              | None => None
              end) (fields_of e).

Definition equals_of (kv : string * string) : FilterExpression :=
  Equals kv.1 kv.2.

(** A field that is absent or holds the sentinel. *)
Definition absent_or_unknown (f : option string) : Prop :=
  f = None ∨ f = Some "unknown".

(** A one-record input. *)
Definition just (e : Entity) : option ExtractedEntities :=
  Some (mkExtractedEntities [e]).

(** The world before any call. *)
Definition world0 : world := mkWorld ∅ [].

Definition alex : Entity :=
  mkEntity (Some "Alex Anderson") (Some "finance") None.

(** Three raw records: the second has the fields of the first in another
    order, the third differs. *)
Definition raw_alex : pydict string :=
  [("employee_name", "Alex Anderson"); ("role", "manager")].

Definition raw_alex_swapped : pydict string :=
  [("role", "manager"); ("employee_name", "Alex Anderson")].

Definition raw_manager : pydict string := [("role", "manager")].

(** Every [str] can be hashed. *)
Definition str_hashable (v : string) : bool := true.

(** ** Vocabulary of the claims about validation *)





(** A record with a field the schema does not know. *)
Definition raw_with_department : pydict raw :=
  [("employee_name", RStr "Alex Anderson");
   ("document_type", RStr "finance");
   ("role", RStr "manager");
   ("department", RStr "treasury")].

(** A record whose role is a number. *)
Definition raw_with_number : pydict raw :=
  [("employee_name", RStr "Alex Anderson");
   ("document_type", RStr "finance");
   ("role", RNum 7)].

(** A model that answers every text with one tool call. *)
Definition tool_reply (raw_entities : list (pydict raw)) (text : string)
    : list ContentBlock :=
  [TextBlock "Extracting.";
   ToolUseBlock (mkToolUse "extract_entities" [("entities", raw_entities)])].

(** A record whose role is an array. *)
Definition raw_with_list : pydict raw :=
  [("employee_name", RStr "Alex Anderson"); ("role", RList)].

(** ** Validation, field by field

    What the two versions of the library do with the raw value of one
    recognised field; [None] stands for a record without the field. *)








(** ** [process_query] *)

(** The session state handed to the agent,
    [{"knowledgeBaseConfigurations": [{"knowledgeBaseId": kb_id,
      "retrievalConfiguration": {"vectorSearchConfiguration":
        {"filter": metadata_filter}}}]}]:
    one knowledge base and the filter, [None] included. *)
Record SessionState := mkSessionState {
  knowledgeBaseId : string;
  search_filter : option FilterExpression
}.

(** The keyword arguments of [agents.invoke]. *)
Record Invocation := mkInvocation {
  input_text : string;
  inv_agent_id : string;
  inv_agent_alias_id : string;
  session_state : SessionState
}.

(** [kb_id], [agent_id] and [agent_alias_id] are globals of the notebook;
    [agents_invoke] is the agent helper, which may do anything to the
    world. *)
Section process_query.
Context (ver : pydantic_version) (model : string → list ContentBlock).
Context (kb_id agent_id agent_alias_id : string).
Context (agents_invoke : Invocation → M string).

Definition process_query (text : string) : M string :=
  extracted_entities <~ extract_entities ver model text ;;
  metadata_filter <~ construct_metadata_filter extracted_entities ;;
  let session_state := mkSessionState kb_id metadata_filter in
  response <~ agents_invoke
                (mkInvocation text agent_id agent_alias_id session_state) ;;
  ret response.
End process_query.

(** A content block that the loop of [extract_entities] stops at. *)
Definition is_extract_tool (b : ContentBlock) : bool :=
  match b with
  | ToolUseBlock t => String.eqb (tool_name t) "extract_entities"
  | TextBlock _ => false
  end.


(** ** [text_to_pdf] *)

(** The calls made on the canvas.  Coordinates are points; page sizes are
    whole numbers of points (letter is 612 by 792), and on those the
    arithmetic of the loop is exact. *)
Inductive canvas_op :=
| ShowPage
| DrawString (x y : Z) (line : string)
| Save.

(** [width] and [height] are the page size ([letter]); [simpleSplit] is the
    line breaker of the PDF library, called with the text and the width
    left between the margins. *)
Section text_to_pdf.
Context (width height : Z) (simpleSplit : string → Z → list string).

(** The [for] loop, from the value [y] has when it is entered. *)
Fixpoint draw_lines (lines : list string) (y : Z) : list canvas_op :=
  match lines with
  | [] => []
  | line :: rest =>
      let new_page := (y <? 40)%Z in
      let y := if new_page then (height - 40)%Z else y in
      (if new_page then [ShowPage] else [])
      ++ DrawString 40 y line :: draw_lines rest (y - 15)%Z
  end.

(** The file the canvas is opened on and the calls made on it. *)
Definition text_to_pdf (text filename file_path : string)
    : string * list canvas_op :=
  let y := (height - 40)%Z in
  let lines := simpleSplit text (width - 80)%Z in
  (file_path +:+ "/" +:+ filename, draw_lines lines y ++ [Save]).
End text_to_pdf.

(** The lines drawn, in the order of the calls. *)
Definition drawn_lines (ops : list canvas_op) : list string :=
  omap (λ op, match op with DrawString _ _ line => Some line | _ => None end) ops.

Definition is_show_page (op : canvas_op) : bool :=
  match op with ShowPage => true | _ => false end.

(** The number of [showPage] calls. *)
Definition page_breaks (ops : list canvas_op) : nat :=
  length (List.filter is_show_page ops).

(** The lines that fit on a page of the given height: the first at
    [height - 40], the next ones 15 points lower each, down to 40. *)
Definition lines_per_page (height : Z) : Z := ((height - 80) / 15 + 1)%Z.

(** ** [upload_folder_to_s3] *)

(** [sub in s] on strings. *)
Fixpoint contains (sub s : string) : bool :=
  String.prefix sub s
  || match s with
     | EmptyString => false
     | String _ s' => contains sub s'
     end.

(** The arguments of one [s3_client.upload_file] call. *)
Record S3Upload := mkS3Upload {
  Filename : string;
  Bucket : string;
  Key : string
}.

(** [listdir] is [os.listdir], the names in a folder. *)
Section upload_folder_to_s3.
Context (listdir : string → list string).

Fixpoint upload_files (filenames : list string)
    (local_path bucket_name s3_key : string) : list S3Upload :=
  match filenames with
  | [] => []
  | filename :: rest =>
      if contains ".ipynb" filename
      then upload_files rest local_path bucket_name s3_key
      else mkS3Upload (local_path +:+ filename) bucket_name
                      (s3_key +:+ "/" +:+ filename)
           :: upload_files rest local_path bucket_name s3_key
  end.

(** The uploads made, in order. *)
Definition upload_folder_to_s3 (local_path bucket_name s3_key : string)
    : list S3Upload :=
  upload_files (listdir local_path) local_path bucket_name s3_key.
End upload_folder_to_s3.

(** [sub] occurs in [s]. *)
Definition occurs_in (sub s : string) : Prop :=
  ∃ before after, s = before +:+ sub +:+ after.

(** An agent helper that answers with the text it was asked. *)
Definition echo_agent (inv : Invocation) : M string := ret (input_text inv).


(** ** The examples of the specification *)

Example construct_alex :
  (construct_metadata_filter (Some (mkExtractedEntities [alex])) world0).1
  = Returns (Some (AndAll [Equals "employee_name" "Alex Anderson";
                           Equals "document_type" "finance"])).
Proof. vm_compute. reflexivity. Qed.

Example construct_unknown_name :
  (construct_metadata_filter
     (just (mkEntity (Some "unknown") (Some "healthcare") (Some "manager")))
     world0).1
  = Returns (Some (AndAll [Equals "document_type" "healthcare";
                           Equals "role" "manager"])).
Proof. vm_compute. reflexivity. Qed.

Example construct_all_unknown :
  construct_metadata_filter
    (just (mkEntity (Some "unknown") None (Some "unknown"))) world0
  = (Returns None, mkWorld {[0 := []]} []).
Proof. vm_compute. reflexivity. Qed.

(** ** Parsing, run on sample records *)

Example parse_number_V1 :
  parse_obj V1 [("entities", [raw_with_number])]
  = Returns (mkExtractedEntities
               [mkEntity (Some "Alex Anderson") (Some "finance") (Some "7")]).
Proof. vm_compute. reflexivity. Qed.

Example parse_number_V2 :
  parse_obj V2 [("entities", [raw_with_number])]
  = Raises (ValidationError [[Field "entities"; Index 0; Field "role"]]).
Proof. vm_compute. reflexivity. Qed.

Example parse_list_V1 :
  parse_obj V1 [("entities", [raw_with_list])]
  = Raises (ValidationError [[Field "entities"]]).
Proof. vm_compute. reflexivity. Qed.

Example parse_list_V2 :
  parse_obj V2 [("entities", [raw_with_list])] = Raises TypeError.
Proof. vm_compute. reflexivity. Qed.

(** A missing attribute is [None] for version 1 and an error for version 2. *)
Example parse_missing_V1 :
  parse_obj V1 [("entities", [[("role", RStr "manager")]])]
  = Returns (mkExtractedEntities [mkEntity None None (Some "manager")]).
Proof. vm_compute. reflexivity. Qed.

Example parse_missing_V2 :
  parse_obj V2 [("entities", [[("role", RStr "manager")]])]
  = Raises (ValidationError [[Field "entities"; Index 0; Field "employee_name"];
                             [Field "entities"; Index 0; Field "document_type"]]).
Proof. vm_compute. reflexivity. Qed.

(** Two records that differ in an unknown field only are both kept, and
    become the same [Entity]. *)
Example parse_department_twice :
  parse_obj V2 [("entities",
                 [raw_with_department;
                  [("employee_name", RStr "Alex Anderson");
                   ("document_type", RStr "finance");
                   ("role", RStr "manager")]])]
  = Returns (mkExtractedEntities
               [mkEntity (Some "Alex Anderson") (Some "finance") (Some "manager");
                mkEntity (Some "Alex Anderson") (Some "finance") (Some "manager")]).
Proof. vm_compute. reflexivity. Qed.

(** A reply without tool call, or with an empty tool input, gives [None]
    and no error; the request is logged. *)
Example extract_entities_no_tool :
  extract_entities V2 (λ _, [TextBlock "Hello."]) "Hi" world0
  = (Returns None, mkWorld ∅ ["Hi"]).
Proof. vm_compute. reflexivity. Qed.

Example extract_entities_empty_input :
  extract_entities V2
    (λ _, [ToolUseBlock (mkToolUse "extract_entities" [])]) "Hi" world0
  = (Returns None, mkWorld ∅ ["Hi"]).
Proof. vm_compute. reflexivity. Qed.

(** ** The upload, run on a folder *)

Example upload_sample_folder :
  upload_folder_to_s3
    (λ _, ["finance-0"; "notes.ipynb.bak"; "finance-0.metadata.json";
           ".ipynb_checkpoints"])
    "sample_documents/finance/" "bucket" "finance"
  = [mkS3Upload "sample_documents/finance/finance-0" "bucket" "finance/finance-0";
     mkS3Upload "sample_documents/finance/finance-0.metadata.json" "bucket"
                "finance/finance-0.metadata.json"].
Proof. vm_compute. reflexivity. Qed.

Lemma heap_preserved_refl w : heap_preserved w w.
Proof. by intros l _. Qed.

Lemma append_if_known_run and_all key field w xs :
  heap w !! and_all = Some xs →
  append_if_known and_all key field w
  = (Returns (), mkWorld (<[and_all := xs ++ leaf key field]> (heap w)) (requests w)).
Proof.
  intros Hl. unfold append_if_known, leaf, known_value.
  destruct field as [v|]; [destruct (truthy_str v && str_ne v "unknown")|].
  - unfold append. by rewrite Hl.
  - unfold ret. rewrite app_nil_r, insert_id by done. by destruct w.
  - unfold ret. rewrite app_nil_r, insert_id by done. by destruct w.
Qed.

Lemma construct_metadata_filter_first e es w :
  construct_metadata_filter (Some (mkExtractedEntities (e :: es))) w
  = (Returns (filter_of (Some (mkExtractedEntities (e :: es)))),
     mkWorld (<[fresh (dom (heap w)) := qualifying_leaves e]> (heap w))
             (requests w)).
Proof.
  unfold construct_metadata_filter, bind, py_or, bind, ret; simpl.
  unfold new_list; simpl.
  set (l := fresh (dom (heap w))).
  rewrite (append_if_known_run l _ _ _ []) by (simpl; apply lookup_insert_eq).
  simpl. rewrite insert_insert_eq.
  rewrite (append_if_known_run l _ _ _ (leaf "employee_name" (employee_name e)))
    by (simpl; apply lookup_insert_eq).
  simpl. rewrite insert_insert_eq.
  rewrite (append_if_known_run l _ _ _
             (leaf "employee_name" (employee_name e)
              ++ leaf "document_type" (document_type e)))
    by (simpl; apply lookup_insert_eq).
  simpl. rewrite insert_insert_eq.
  unfold load; simpl. rewrite lookup_insert_eq.
  rewrite <- app_assoc. fold (qualifying_leaves e).
  by destruct (qualifying_leaves e).
Qed.

Lemma construct_metadata_filter_none w :
  construct_metadata_filter None w = (Returns None, w).
Proof. reflexivity. Qed.

Lemma construct_metadata_filter_empty w :
  construct_metadata_filter (Some (mkExtractedEntities [])) w = (Returns None, w).
Proof. reflexivity. Qed.

Lemma construct_metadata_filter_run x w :
  ∃ w', construct_metadata_filter x w = (Returns (filter_of x), w')
        ∧ requests w' = requests w
        ∧ heap_preserved w w'.
Proof.
  destruct x as [[[|e es]]|].
  - exists w. split; [apply construct_metadata_filter_empty|].
    split; [done|apply heap_preserved_refl].
  - eexists. split; [apply construct_metadata_filter_first|].
    split; [done|]. intros l Hl; simpl.
    apply lookup_insert_ne. intros <-. by apply (is_fresh (dom (heap w))).
  - exists w. split; [apply construct_metadata_filter_none|].
    split; [done|apply heap_preserved_refl].
Qed.

(** ** The order on keys *)

Lemma ascii_compare_refl c : Ascii.compare c c = Eq.
Proof. unfold Ascii.compare. apply N.compare_refl. Qed.

Lemma ascii_compare_trans c1 c2 c3 o :
  Ascii.compare c1 c2 = o → Ascii.compare c2 c3 = o → Ascii.compare c1 c3 = o.
Proof.
  unfold Ascii.compare. intros H1 H2. destruct o.
  - apply N.compare_eq_iff in H1, H2. rewrite H1, H2. apply N.compare_refl.
  - rewrite N.compare_lt_iff in *. lia.
  - rewrite N.compare_gt_iff in *. lia.
Qed.

Lemma string_leb_trans s1 s2 s3 :
  String.leb s1 s2 → String.leb s2 s3 → String.leb s1 s3.
Proof.
  unfold String.leb. revert s2 s3.
  induction s1 as [|c1 s1 IH]; intros [|c2 s2] [|c3 s3]; simpl; try done.
  destruct (Ascii.compare c1 c2) eqn:E12; [| |done];
    destruct (Ascii.compare c2 c3) eqn:E23; try done.
  - apply Ascii.compare_eq_iff in E12, E23. subst.
    rewrite ascii_compare_refl. apply IH.
  - apply Ascii.compare_eq_iff in E12. subst. by rewrite E23.
  - apply Ascii.compare_eq_iff in E23. subst. by rewrite E12.
  - by rewrite (ascii_compare_trans _ _ _ _ E12 E23).
Qed.

#[global] Instance item_le_trans {V} : Transitive (@item_le V).
Proof. intros a b c. unfold item_le. apply string_leb_trans. Qed.

#[global] Instance item_le_total {V} : Total (@item_le V).
Proof.
  intros a b. unfold item_le.
  destruct (String.leb_total a.1 b.1) as [->| ->]; [by left|by right].
Qed.

Lemma item_le_antisym_key {V} (a b : string * V) :
  item_le a b → item_le b a → a.1 = b.1.
Proof.
  unfold item_le. intros H1 H2.
  apply String.leb_antisym; by apply Is_true_true.
Qed.

(** ** Dictionaries *)

Section dict_facts.
Context {V : Type}.
Implicit Types d : pydict V.

Lemma dict_wf_value d k v1 v2 :
  dict_wf d → (k, v1) ∈ d → (k, v2) ∈ d → v1 = v2.
Proof.
  unfold dict_wf. induction d as [|[k' v'] d IH]; simpl.
  - by intros _ ?%elem_of_nil.
  - intros [Hk Hd]%NoDup_cons [H1|H1]%elem_of_cons [H2|H2]%elem_of_cons.
    + congruence.
    + injection H1 as -> ->. destruct Hk.
      apply list_elem_of_fmap. by exists (k', v2).
    + injection H2 as -> ->. destruct Hk.
      apply list_elem_of_fmap. by exists (k', v1).
    + by apply IH.
Qed.

Lemma dict_wf_perm d1 d2 : d1 ≡ₚ d2 → dict_wf d1 → dict_wf d2.
Proof. unfold dict_wf. by intros ->. Qed.

Lemma sorted_items_perm d : sorted_items d ≡ₚ d.
Proof. apply merge_sort_Permutation. Qed.

Lemma sorted_items_same_fields d : same_fields (sorted_items d) d.
Proof. apply sorted_items_perm. Qed.

Lemma sorted_items_wf d : dict_wf d → dict_wf (sorted_items d).
Proof. apply dict_wf_perm. symmetry. apply sorted_items_perm. Qed.

(** Sorting makes the order of insertion disappear, and nothing else. *)
Lemma sorted_items_eq_iff d1 d2 :
  dict_wf d1 → dict_wf d2 →
  sorted_items d1 = sorted_items d2 ↔ same_fields d1 d2.
Proof.
  intros Hwf1 Hwf2. unfold same_fields. split.
  - intros Heq. rewrite <- (sorted_items_perm d1), Heq.
    apply sorted_items_perm.
  - intros Hp.
    apply (StronglySorted_unique_strong item_le).
    + intros [k1 v1] [k2 v2] Hin1 Hin2 Hle Hge.
      pose proof (item_le_antisym_key _ _ Hle Hge) as Hk; simpl in Hk; subst k2.
      f_equal. apply (dict_wf_value d2 k1); [done| |].
      * rewrite <- Hp, <- (sorted_items_perm d1). done.
      * rewrite <- (sorted_items_perm d2). done.
    + apply StronglySorted_merge_sort; apply _.
    + apply StronglySorted_merge_sort; apply _.
    + by rewrite !sorted_items_perm.
Qed.

Lemma dict_set_fresh d k v :
  k ∉ d.*1 → dict_set d k v = d ++ [(k, v)].
Proof.
  induction d as [|[k' v'] d IH]; simpl; [done|].
  intros Hk. apply not_elem_of_cons in Hk as [Hne Hk].
  rewrite decide_False by done. by rewrite IH.
Qed.

Lemma dict_of_items_app (acc its : list (string * V)) :
  NoDup (acc ++ its).*1 →
  fold_left (λ d it, dict_set d it.1 it.2) its acc = acc ++ its.
Proof.
  revert acc. induction its as [|[k v] its IH]; intros acc Hnd; simpl.
  - by rewrite app_nil_r.
  - rewrite dict_set_fresh.
    + rewrite IH; rewrite <- app_assoc; done.
    + rewrite fmap_app in Hnd. apply NoDup_app in Hnd as (_ & Hdisj & _).
      intros Hin. apply (Hdisj k Hin). simpl. left.
Qed.

(** [dict(tuple)] of distinct keys has the items of the tuple, in order. *)
Lemma dict_of_items_wf (its : list (string * V)) :
  dict_wf its → dict_of_items its = its.
Proof. intros Hwf. unfold dict_of_items. by rewrite dict_of_items_app. Qed.
End dict_facts.

(** ** The loop of [remove_duplicates] *)

Section remove_duplicates_facts.
Context {V : Type} `{Countable V} (hashable : V → bool).
Implicit Types d : pydict V.

Lemma tuple_hashable_sorted d :
  values_hashable hashable d → tuple_hashable hashable (sorted_items d) = true.
Proof.
  unfold values_hashable, tuple_hashable. intros Hd.
  apply forallb_forall. intros it Hin%list_elem_of_In.
  rewrite sorted_items_perm in Hin.
  by apply (proj1 (Forall_forall _ _) Hd).
Qed.

Lemma tuple_unhashable_sorted d :
  ¬ values_hashable hashable d → tuple_hashable hashable (sorted_items d) = false.
Proof.
  unfold values_hashable, tuple_hashable. intros Hd.
  apply not_true_is_false. intros Hall. apply Hd.
  apply Forall_forall. intros it Hin.
  apply (proj1 (forallb_forall _ _) Hall).
  apply list_elem_of_In. by rewrite sorted_items_perm.
Qed.

Lemma remove_duplicates_loop_spec rest :
  ∀ earlier unique_entities (seen : gset (list (string * V))),
    Forall dict_wf earlier →
    Forall dict_wf rest →
    Forall (values_hashable hashable) rest →
    (∀ t, t ∈ seen ↔ ∃ d, d ∈ earlier ∧ sorted_items d = t) →
    remove_duplicates_loop hashable rest unique_entities seen
    = Returns (unique_entities ++ (sorted_items <$> first_occurrences earlier rest)).
Proof.
  induction rest as [|d rest IH]; intros earlier uniq seen Hwe Hwr Hh Hseen; simpl.
  - by rewrite app_nil_r.
  - apply Forall_cons in Hwr as [Hwd Hwr]. apply Forall_cons in Hh as [Hhd Hh].
    rewrite tuple_hashable_sorted by done.
    assert (sorted_items d ∈ seen ↔ Exists (same_fields d) earlier) as Hiff.
    { rewrite Hseen, Exists_exists. split.
      - intros (d' & Hin & Heq). exists d'. split; [done|].
        apply sorted_items_eq_iff; [done| |done].
        by apply (proj1 (Forall_forall _ _) Hwe).
      - intros (d' & Hin & Hsame). exists d'. split; [done|].
        apply sorted_items_eq_iff; [|done|by symmetry].
        by apply (proj1 (Forall_forall _ _) Hwe). }
    assert (Forall dict_wf (earlier ++ [d])) as Hwe'.
    { apply Forall_app. split; [done|]. by apply Forall_singleton. }
    destruct (decide (sorted_items d ∉ seen)) as [Hnew|Hold].
    + rewrite decide_False by (by rewrite <- Hiff).
      rewrite dict_of_items_wf by (by apply sorted_items_wf).
      rewrite (IH (earlier ++ [d])); [|done..|].
      * by rewrite <- app_assoc.
      * intros t. rewrite elem_of_union, elem_of_singleton, Hseen. split.
        -- intros [->|(d' & Hin & Heq)].
           ++ exists d. split; [|done]. apply elem_of_app. right. by left.
           ++ exists d'. split; [|done]. apply elem_of_app. by left.
        -- intros (d' & [Hin|Hin%list_elem_of_singleton]%elem_of_app & Heq).
           ++ right. by exists d'.
           ++ left. by subst.
    + apply dec_stable in Hold.
      rewrite decide_True by (by rewrite <- Hiff).
      rewrite (IH (earlier ++ [d])); [done..|].
      intros t. split.
      -- intros (d' & Hin & Heq)%Hseen.
         exists d'. split; [|done]. apply elem_of_app. by left.
      -- intros (d' & [Hin|Hin%list_elem_of_singleton]%elem_of_app & Heq).
         ++ apply Hseen. by exists d'.
         ++ by subst.
Qed.

Lemma remove_duplicates_returns entities :
  Forall dict_wf entities →
  Forall (values_hashable hashable) entities →
  remove_duplicates hashable entities
  = Returns (sorted_items <$> first_occurrences [] entities).
Proof.
  intros Hwf Hh. unfold remove_duplicates.
  rewrite (remove_duplicates_loop_spec entities []); [done..|].
  intros t. rewrite elem_of_empty. split; [done|].
  by intros (d & Hin%elem_of_nil & _).
Qed.
End remove_duplicates_facts.

(** ** What [first_occurrences] keeps *)

Section first_occurrences_facts.
Context {V : Type} `{EqDecision V}.
Implicit Types (d : pydict V) (earlier l : list (pydict V)).

#[global] Instance same_fields_equiv : Equivalence (@same_fields V).
Proof. unfold same_fields. apply _. Qed.

Lemma first_occurrences_sublist earlier l :
  first_occurrences earlier l `sublist_of` l.
Proof.
revert earlier. induction l as [|d l IH]; intros earlier; simpl; [done|].
case_decide; [apply sublist_cons|apply sublist_skip]; apply IH.
Qed.

(** Every record has the fields of a record kept or of an earlier one. *)
Lemma first_occurrences_cover earlier l d :
  d ∈ l →
  Exists (same_fields d) earlier
  ∨ ∃ d', d' ∈ first_occurrences earlier l ∧ same_fields d' d.
Proof.
revert earlier. induction l as [|a l IH]; intros earlier Hin; simpl.
- by apply elem_of_nil in Hin.
- apply elem_of_cons in Hin as [->|Hin].
  + case_decide; [by left|right]. exists a. split; [by left|done].
  + destruct (IH (earlier ++ [a]) Hin) as [Hex|(d' & Hd' & Hsame)].
    * apply Exists_app in Hex as [Hex|Hex]; [by left|].
      apply Exists_cons in Hex as [Hex|Hex]; [|by apply Exists_nil in Hex].
      case_decide as Ha.
      -- left. apply Exists_exists in Ha as (e & He & Hae).
         apply Exists_exists. exists e. split; [done|]. by etrans.
      -- right. exists a. split; [by left|]. by symmetry.
    * right. exists d'. split; [|done]. case_decide; [done|by right].
Qed.

(** A record kept has the fields of no earlier record. *)
Lemma first_occurrences_new earlier l d :
  d ∈ first_occurrences earlier l → ¬ Exists (same_fields d) earlier.
Proof.
revert earlier. induction l as [|a l IH]; intros earlier; simpl.
- by intros ?%elem_of_nil.
- case_decide as Ha.
  + intros Hin%IH Hex. apply Hin. apply Exists_app. by left.
  + intros [->|Hin%IH]%elem_of_cons; [done|].
    intros Hex. apply Hin. apply Exists_app. by left.
Qed.

(** No two records kept have the same fields. *)
Lemma first_occurrences_distinct earlier l i j d1 d2 :
  first_occurrences earlier l !! i = Some d1 →
  first_occurrences earlier l !! j = Some d2 →
  same_fields d1 d2 → i = j.
Proof.
revert earlier i j. induction l as [|a l IH]; intros earlier i j; simpl; [done|].
case_decide as Ha; [by apply IH|].
destruct i as [|i], j as [|j]; simpl; [done| | |].
- intros [= ->] Hj Hsame. exfalso.
  apply list_elem_of_lookup_2, first_occurrences_new in Hj. apply Hj.
  apply Exists_app. right. apply Exists_cons. left. by symmetry.
- intros Hi [= ->] Hsame. exfalso.
  apply list_elem_of_lookup_2, first_occurrences_new in Hi. apply Hi.
  apply Exists_app. right. apply Exists_cons. by left.
- intros Hi Hj Hsame. f_equal. by apply (IH (earlier ++ [a])).
Qed.
End first_occurrences_facts.

(** ** The guard of one field *)

Lemma guard_qualifies v :
  truthy_str v && str_ne v "unknown" = bool_decide (qualifies v).
Proof.
  unfold truthy_str, str_ne.
  destruct (String.eqb_spec v "") as [Hv|Hne]; simpl.
  - symmetry. apply bool_decide_eq_false_2. by intros [? _].
  - destruct (String.eqb_spec v "unknown") as [Hv|Hnu]; simpl.
    + symmetry. apply bool_decide_eq_false_2. by intros [_ ?].
    + symmetry. by apply bool_decide_eq_true_2.
Qed.

Lemma known_value_Some f v :
  known_value f = Some v ↔ f = Some v ∧ qualifies v.
Proof.
  unfold known_value. destruct f as [u|]; [|naive_solver].
  rewrite guard_qualifies. case_bool_decide; naive_solver.
Qed.

Lemma known_value_None f :
  known_value f = None ↔ ∀ v, f = Some v → ¬ qualifies v.
Proof.
  unfold known_value. destruct f as [u|]; [|naive_solver].
  rewrite guard_qualifies. case_bool_decide; naive_solver.
Qed.

Lemma leaf_decide k f :
  leaf k f = match f with
             | Some v => if decide (qualifies v) then [Equals k v] else []
             | None => []
             end.
Proof.
  unfold leaf, known_value. destruct f as [v|]; [|done].
  rewrite guard_qualifies. by case_bool_decide; case_decide.
Qed.

Lemma elem_of_leaf k k' v f :
  Equals k v ∈ leaf k' f ↔ k = k' ∧ f = Some v ∧ qualifies v.
Proof.
  rewrite leaf_decide. destruct f as [u|].
  - case_decide.
    + rewrite list_elem_of_singleton. naive_solver.
    + rewrite elem_of_nil. naive_solver.
  - rewrite elem_of_nil. naive_solver.
Qed.

Lemma qualifying_leaves_fields e :
  qualifying_leaves e = equals_of <$> qualifying_fields e.
Proof.
  unfold qualifying_leaves, qualifying_fields, fields_of.
  rewrite !leaf_decide. simpl.
  destruct (employee_name e) as [n|], (document_type e) as [t|], (role e) as [r|];
    simpl; repeat case_decide; reflexivity.
Qed.

Lemma built_leaves_first e es w :
  built_leaves (Some (mkExtractedEntities (e :: es))) w = qualifying_leaves e.
Proof.
  unfold built_leaves. rewrite construct_metadata_filter_first. simpl.
  by destruct (qualifying_leaves e).
Qed.

Lemma leaf_keys k f : ∃ b : bool, leaf_key <$> leaf k f = if b then [Some k] else [].
Proof.
  rewrite leaf_decide. destruct f as [v|]; [case_decide|].
  - by exists true.
  - by exists false.
  - by exists false.
Qed.

Lemma conjuncts_of_filter_of e es :
  conjuncts_of (filter_of (Some (mkExtractedEntities (e :: es))))
  = qualifying_leaves e.
Proof. simpl. by destruct (qualifying_leaves e). Qed.

Lemma construct_metadata_filter_first_value e es w :
  (construct_metadata_filter (Some (mkExtractedEntities (e :: es))) w).1
  = Returns (filter_of (Some (mkExtractedEntities (e :: es)))).
Proof. by rewrite construct_metadata_filter_first. Qed.

(** Membership of a leaf in the leaves of an entity, field by field. *)
Lemma elem_of_qualifying_leaves k v e :
  Equals k v ∈ qualifying_leaves e
  ↔ (k = "employee_name" ∧ employee_name e = Some v ∧ qualifies v)
    ∨ (k = "document_type" ∧ document_type e = Some v ∧ qualifies v)
    ∨ (k = "role" ∧ role e = Some v ∧ qualifies v).
Proof. unfold qualifying_leaves. by rewrite !elem_of_app, !elem_of_leaf. Qed.

Lemma qualifying_leaves_keys e :
  ∃ keys, leaf_key <$> qualifying_leaves e = Some <$> keys
          ∧ keys `sublist_of` field_order.
Proof.
  unfold qualifying_leaves. rewrite !fmap_app.
  destruct (leaf_keys "employee_name" (employee_name e)) as [b1 ->].
  destruct (leaf_keys "document_type" (document_type e)) as [b2 ->].
  destruct (leaf_keys "role" (role e)) as [b3 ->].
  exists ((if b1 then ["employee_name"] else [])
          ++ (if b2 then ["document_type"] else [])
          ++ (if b3 then ["role"] else [])).
  split; [by destruct b1, b2, b3|].
  unfold field_order.
  destruct b1, b2, b3; simpl;
    repeat first [apply sublist_nil | apply sublist_skip | apply sublist_cons].
Qed.

(** ** Lookup in a dictionary *)

Section dict_get_facts.
Context {V : Type}.
Implicit Types d : pydict V.




End dict_get_facts.

(** ** A record that cannot be hashed *)

Section unhashable.
Context {V : Type} `{Countable V} (hashable : V → bool).

Lemma remove_duplicates_loop_raises entities :
  ∀ unique_entities (seen : gset (list (string * V))),
    Exists (λ d, ¬ values_hashable hashable d) entities →
    remove_duplicates_loop hashable entities unique_entities seen
    = Raises TypeError.
Proof.
induction entities as [|d rest IH]; intros uniq seen Hex; simpl.
- by apply Exists_nil in Hex.
- destruct (tuple_hashable hashable (sorted_items d)) eqn:Hd; [|done].
  apply Exists_cons in Hex as [Hbad|Hex].
  + apply (tuple_unhashable_sorted hashable) in Hbad. congruence.
  + case_decide; by apply IH.
Qed.

Lemma remove_duplicates_raises entities :
  Exists (λ d, ¬ values_hashable hashable d) entities →
  remove_duplicates hashable entities = Raises TypeError.
Proof. apply remove_duplicates_loop_raises. Qed.
End unhashable.

(** ** Validation of the records *)






(** ** [parse_obj], case by case *)



Lemma Forall_first_occurrences {V} `{EqDecision V} (P : pydict V → Prop) l :
  Forall P l → Forall P (first_occurrences [] l).
Proof.
rewrite !Forall_forall. intros HP d Hd. apply HP.
eapply elem_of_sublist; [exact Hd|apply first_occurrences_sublist].
Qed.

Lemma Forall_sorted_first_occurrences {V} `{EqDecision V}
    (P : pydict V → Prop) (l : list (pydict V)) :
  (∀ d, P d → P (sorted_items d)) →
  Forall P l → Forall P (sorted_items <$> first_occurrences [] l).
Proof.
intros HP Hall. apply Forall_fmap.
eapply Forall_impl; [by apply Forall_first_occurrences|]. done.
Qed.

Lemma values_hashable_sorted {V} (hashable : V → bool) (d : pydict V) :
  values_hashable hashable d → values_hashable hashable (sorted_items d).
Proof. unfold values_hashable. by rewrite sorted_items_perm. Qed.

(** ** Validation against the field-by-field account *)















(** ** [extract_entities] hands the tool input to [parse_obj] *)


(** * Claims about [construct_metadata_filter] *)

Section builder_claims.
Implicit Types (r : Entity) (rest : list Entity) (w : world).
Implicit Types (x : option ExtractedEntities).

(** C1, as amended.  For an input whose first record is [r] the call
    returns, and the sub-expressions of the result are the [equals]
    leaves of the fields of [r] that are present with a value that is
    neither the empty string nor ["unknown"]: one leaf per such field
    and no other sub-expression, in the order employee_name,
    document_type, role. *)
Theorem construct_metadata_filter_leaves r rest w :
  ∃ out,
    (construct_metadata_filter (Some (mkExtractedEntities (r :: rest))) w).1
    = Returns out
    ∧ conjuncts_of out = equals_of <$> qualifying_fields r
    ∧ (∀ v, Equals "employee_name" v ∈ conjuncts_of out
            ↔ employee_name r = Some v ∧ v ≠ "" ∧ v ≠ "unknown")
    ∧ (∀ v, Equals "document_type" v ∈ conjuncts_of out
            ↔ document_type r = Some v ∧ v ≠ "" ∧ v ≠ "unknown")
    ∧ (∀ v, Equals "role" v ∈ conjuncts_of out
            ↔ role r = Some v ∧ v ≠ "" ∧ v ≠ "unknown")
    ∧ ∃ keys, leaf_key <$> conjuncts_of out = Some <$> keys
              ∧ keys `sublist_of` field_order.
Proof.
exists (filter_of (Some (mkExtractedEntities (r :: rest)))).
split; [apply construct_metadata_filter_first_value|].
rewrite conjuncts_of_filter_of.
split; [apply qualifying_leaves_fields|].
split; [|split; [|split]];
  [intros v; rewrite elem_of_qualifying_leaves; unfold qualifies;
   split; [intros [H|[H|H]]; destruct H as (Hk & ? & ? & ?); by try discriminate Hk
          |intros (? & ? & ?); auto 6].. |].
apply qualifying_leaves_keys.
Qed.

(** C1 as stated fails on the empty string: the employee_name of
    [{employee_name: ""}] is present and is not ["unknown"], and the call
    returns no leaf for it. *)
Lemma empty_employee_name_gets_no_leaf :
  ¬ (∀ v, Equals "employee_name" v
            ∈ built_leaves (just (mkEntity (Some "") None None)) world0
          ↔ employee_name (mkEntity (Some "") None None) = Some v
            ∧ v ≠ "unknown").
Proof.
intros Hclaim. destruct (Hclaim "") as [_ Hin].
assert (Equals "employee_name" ""
        ∈ built_leaves (just (mkEntity (Some "") None None)) world0) as Habs
  by (apply Hin; split; [reflexivity|discriminate]).
vm_compute in Habs. by apply elem_of_nil in Habs.
Qed.

(** C2.  A call returns either no filter or an [andAll] over a non-empty
    list, never an [andAll] over the empty list; when each field of the
    first record is absent or ["unknown"], it returns no filter. *)
Theorem construct_metadata_filter_never_empty x w :
  ((construct_metadata_filter x w).1 = Returns None
   ∨ ∃ ls, (construct_metadata_filter x w).1 = Returns (Some (AndAll ls))
           ∧ ls ≠ [])
  ∧ (construct_metadata_filter x w).1 ≠ Returns (Some (AndAll []))
  ∧ ∀ r rest,
      x = Some (mkExtractedEntities (r :: rest)) →
      absent_or_unknown (employee_name r) →
      absent_or_unknown (document_type r) →
      absent_or_unknown (role r) →
      (construct_metadata_filter x w).1 = Returns None.
Proof.
destruct (construct_metadata_filter_run x w) as (w' & -> & _); simpl.
split; [|split].
- destruct x as [[[|e es]]|]; simpl; [by left| |by left].
  destruct (qualifying_leaves e) as [|f ls]; [by left|right].
  by exists (f :: ls).
- destruct x as [[[|e es]]|]; simpl; [done| |done].
  by destruct (qualifying_leaves e).
- intros r rest -> Hn Ht Hr. simpl.
  unfold qualifying_leaves.
  by destruct Hn as [-> | ->], Ht as [-> | ->], Hr as [-> | ->].
Qed.

Lemma construct_metadata_filter_never_empty_witness :
  absent_or_unknown (employee_name (mkEntity None (Some "unknown") None))
  ∧ (construct_metadata_filter
       (just (mkEntity None (Some "unknown") None)) world0).1
    = Returns None.
Proof.
split; [by left|].
apply (proj2 (proj2 (construct_metadata_filter_never_empty
                       (just (mkEntity None (Some "unknown") None)) world0))
         (mkEntity None (Some "unknown") None) []).
- reflexivity.
- by left.
- by right.
- by left.
Defined.

(** C3.  On [None] and on an input without records the call returns no
    filter: it returns, raises nothing and leaves the world as it was. *)
Theorem construct_metadata_filter_no_records w :
  construct_metadata_filter None w = (Returns None, w)
  ∧ construct_metadata_filter (Some (mkExtractedEntities [])) w
    = (Returns None, w).
Proof. split; reflexivity. Qed.

(** C4.  Two inputs with the same first record give the same result,
    whatever records follow the first and whatever the world. *)
Theorem construct_metadata_filter_first_record_only r rest rest' w w' :
  (construct_metadata_filter (Some (mkExtractedEntities (r :: rest))) w).1
  = (construct_metadata_filter (Some (mkExtractedEntities (r :: rest'))) w').1.
Proof. by rewrite !construct_metadata_filter_first_value. Qed.

(** C7.  On every input of the declared domain ([None], no records, or
    records of optional strings) the call returns a value and raises
    nothing; it sends no request to the model endpoint and changes no list
    object that existed before the call. *)
Theorem construct_metadata_filter_total x w :
  ∃ out w',
    construct_metadata_filter x w = (Returns out, w')
    ∧ requests w' = requests w
    ∧ heap_preserved w w'.
Proof.
destruct (construct_metadata_filter_run x w) as (w' & Hrun & Hreq & Hheap).
by exists (filter_of x), w'.
Qed.

(** C8.  Calling the builder twice on the same input, the second call in
    the world the first one left, returns the same filter; so does a call
    in any other world; and two first records with the same qualifying
    fields give the same filter, leaves in the same order. *)
Theorem construct_metadata_filter_deterministic x w w' :
  (construct_metadata_filter x (construct_metadata_filter x w).2).1
  = (construct_metadata_filter x w).1
  ∧ (construct_metadata_filter x w').1 = (construct_metadata_filter x w).1
  ∧ (∃ out, (construct_metadata_filter x w).1 = Returns out)
  ∧ ∀ r r' rest rest',
      qualifying_fields r = qualifying_fields r' →
      (construct_metadata_filter (Some (mkExtractedEntities (r :: rest))) w).1
      = (construct_metadata_filter (Some (mkExtractedEntities (r' :: rest'))) w').1.
Proof.
split; [|split; [|split]].
- destruct (construct_metadata_filter_run x w) as (w1 & H1 & _).
  rewrite H1; simpl.
  by destruct (construct_metadata_filter_run x w1) as (w2 & -> & _).
- destruct (construct_metadata_filter_run x w) as (w1 & -> & _).
  by destruct (construct_metadata_filter_run x w') as (w2 & -> & _).
- destruct (construct_metadata_filter_run x w) as (w1 & -> & _).
  by eexists.
- intros r r' rest rest' Hq.
  rewrite !construct_metadata_filter_first_value. simpl.
  by rewrite !qualifying_leaves_fields, Hq.
Qed.

Lemma construct_metadata_filter_deterministic_witness :
  qualifying_fields (mkEntity (Some "unknown") (Some "healthcare") (Some "manager"))
  = qualifying_fields (mkEntity None (Some "healthcare") (Some "manager"))
  ∧ (construct_metadata_filter
       (just (mkEntity (Some "unknown") (Some "healthcare") (Some "manager")))
       world0).1
    = (construct_metadata_filter
         (just (mkEntity None (Some "healthcare") (Some "manager")))
         world0).1.
Proof.
split; [reflexivity|].
apply (proj2 (proj2 (proj2 (construct_metadata_filter_deterministic
                              None world0 world0)))
         (mkEntity (Some "unknown") (Some "healthcare") (Some "manager"))
         (mkEntity None (Some "healthcare") (Some "manager")) [] []).
reflexivity.
Defined.

(** C9.  A field of the first record that holds the empty string gets no
    [equals] leaf, and the call returns what it returns when that field is
    absent and when it holds ["unknown"]. *)
Theorem construct_metadata_filter_empty_string r rest w :
  (employee_name r = Some "" →
   (∀ v, Equals "employee_name" v
         ∉ built_leaves (Some (mkExtractedEntities (r :: rest))) w)
   ∧ construct_metadata_filter (Some (mkExtractedEntities (r :: rest))) w
     = construct_metadata_filter
         (Some (mkExtractedEntities
                  (mkEntity None (document_type r) (role r) :: rest))) w
   ∧ construct_metadata_filter (Some (mkExtractedEntities (r :: rest))) w
     = construct_metadata_filter
         (Some (mkExtractedEntities
                  (mkEntity (Some "unknown") (document_type r) (role r) :: rest))) w)
  ∧ (document_type r = Some "" →
     (∀ v, Equals "document_type" v
           ∉ built_leaves (Some (mkExtractedEntities (r :: rest))) w)
     ∧ construct_metadata_filter (Some (mkExtractedEntities (r :: rest))) w
       = construct_metadata_filter
           (Some (mkExtractedEntities
                    (mkEntity (employee_name r) None (role r) :: rest))) w
     ∧ construct_metadata_filter (Some (mkExtractedEntities (r :: rest))) w
       = construct_metadata_filter
           (Some (mkExtractedEntities
                    (mkEntity (employee_name r) (Some "unknown") (role r) :: rest))) w)
  ∧ (role r = Some "" →
     (∀ v, Equals "role" v
           ∉ built_leaves (Some (mkExtractedEntities (r :: rest))) w)
     ∧ construct_metadata_filter (Some (mkExtractedEntities (r :: rest))) w
       = construct_metadata_filter
           (Some (mkExtractedEntities
                    (mkEntity (employee_name r) (document_type r) None :: rest))) w
     ∧ construct_metadata_filter (Some (mkExtractedEntities (r :: rest))) w
       = construct_metadata_filter
           (Some (mkExtractedEntities
                    (mkEntity (employee_name r) (document_type r) (Some "unknown")
                     :: rest))) w).
Proof.
destruct r as [n t ro]; simpl.
split; [|split]; intros ->;
  (split; [|by rewrite !construct_metadata_filter_first]);
  intros v; rewrite built_leaves_first, elem_of_qualifying_leaves; simpl;
  intros [H|[H|H]]; destruct H as (Hk & Hv & Hne & _);
  try discriminate Hk; by injection Hv as <-.
Qed.

Lemma construct_metadata_filter_empty_string_witness :
  role (mkEntity (Some "Alex Anderson") (Some "finance") (Some "")) = Some ""
  ∧ ∀ v, Equals "role" v
         ∉ built_leaves
             (just (mkEntity (Some "Alex Anderson") (Some "finance") (Some "")))
             world0.
Proof.
split; [reflexivity|].
apply (proj2 (proj2 (construct_metadata_filter_empty_string
                       (mkEntity (Some "Alex Anderson") (Some "finance") (Some ""))
                       [] world0))).
reflexivity.
Defined.

(** C10, as amended.  When exactly one field of the first record is
    present with a value that is neither empty nor ["unknown"], the call
    returns an [andAll] whose list holds the [equals] leaf of that field
    and nothing else, not the bare leaf. *)
Theorem construct_metadata_filter_single_field r rest w k v :
  qualifying_fields r = [(k, v)] →
  (construct_metadata_filter (Some (mkExtractedEntities (r :: rest))) w).1
  = Returns (Some (AndAll [Equals k v])).
Proof.
intros Hq. rewrite construct_metadata_filter_first_value. simpl.
by rewrite qualifying_leaves_fields, Hq.
Qed.

Lemma construct_metadata_filter_single_field_witness :
  qualifying_fields (mkEntity (Some "unknown") (Some "finance") None)
  = [("document_type", "finance")]
  ∧ (construct_metadata_filter
       (just (mkEntity (Some "unknown") (Some "finance") None)) world0).1
    = Returns (Some (AndAll [Equals "document_type" "finance"])).
Proof.
split; [reflexivity|].
apply (construct_metadata_filter_single_field
         (mkEntity (Some "unknown") (Some "finance") None) [] world0).
reflexivity.
Defined.

(** C10 as stated fails on the empty string: [{employee_name: ""}] has
    exactly one field that is present and not ["unknown"], and the call
    returns no filter instead of a one-element [andAll]. *)
Lemma lone_empty_string_gives_no_filter :
  ¬ (length (present_known_fields (mkEntity (Some "") None None)) = 1 →
     ∃ f, (construct_metadata_filter
             (just (mkEntity (Some "") None None)) world0).1
          = Returns (Some (AndAll [f]))).
Proof.
intros Hclaim. destruct (Hclaim eq_refl) as [f Hf].
vm_compute in Hf. discriminate Hf.
Qed.

End builder_claims.

(** * Claims about [remove_duplicates] *)

(** C5.  On a list of raw records (dictionaries, of values Python can
    hash) the validator returns the records left when duplicates are
    removed.  Two records are duplicates exactly when they have the same
    fields, in whatever order the fields come.  A record is kept when no
    record before it is a duplicate of it, so the first occurrence stays
    and later ones go; the records kept are in input order, each with its
    own fields, every input record is represented and no two results are
    duplicates. *)
Theorem remove_duplicates_first_occurrences {V : Type} `{Countable V}
    (hashable : V → bool) (entities : list (pydict V)) :
  Forall dict_wf entities →
  Forall (values_hashable hashable) entities →
  ∃ out,
    remove_duplicates hashable entities = Returns out
    ∧ out = sorted_items <$> first_occurrences [] entities
    ∧ Forall2 same_fields out (first_occurrences [] entities)
    ∧ first_occurrences [] entities `sublist_of` entities
    ∧ (∀ d, d ∈ entities → ∃ d', d' ∈ out ∧ same_fields d' d)
    ∧ (∀ i j d1 d2, out !! i = Some d1 → out !! j = Some d2 →
                    same_fields d1 d2 → i = j)
    ∧ (∀ d1 d2, d1 ∈ entities → d2 ∈ entities →
                (sorted_items d1 = sorted_items d2 ↔ same_fields d1 d2)).
Proof.
intros Hwf Hh. eexists. split; [by apply remove_duplicates_returns|].
split; [done|]. split; [|split; [|split; [|split]]].
- apply Forall2_fmap_l, Forall_Forall2_diag, Forall_forall.
  intros d _. apply sorted_items_same_fields.
- apply first_occurrences_sublist.
- intros d Hd.
  destruct (first_occurrences_cover [] entities d Hd) as [Hex|(d' & Hd' & Hsame)].
  + by apply Exists_nil in Hex.
  + exists (sorted_items d'). split; [by apply list_elem_of_fmap_2|].
    etrans; [apply sorted_items_same_fields|done].
- intros i j d1 d2 Hi Hj Hsame.
  apply list_lookup_fmap_Some_1 in Hi as (a1 & -> & Hi).
  apply list_lookup_fmap_Some_1 in Hj as (a2 & -> & Hj).
  apply (first_occurrences_distinct [] entities i j a1 a2 Hi Hj).
  etrans; [symmetry; apply sorted_items_same_fields|].
  etrans; [apply Hsame|apply sorted_items_same_fields].
- intros d1 d2 Hd1 Hd2. apply sorted_items_eq_iff.
  + by apply (proj1 (Forall_forall _ _) Hwf).
  + by apply (proj1 (Forall_forall _ _) Hwf).
Qed.

Lemma remove_duplicates_first_occurrences_witness :
  Forall dict_wf [raw_alex; raw_alex_swapped; raw_manager; raw_alex]
  ∧ remove_duplicates str_hashable
      [raw_alex; raw_alex_swapped; raw_manager; raw_alex]
    = Returns [raw_alex; raw_manager].
Proof.
assert (Forall dict_wf [raw_alex; raw_alex_swapped; raw_manager; raw_alex]) as Hwf.
{ repeat apply Forall_cons_2; try apply Forall_nil_2;
    unfold dict_wf; apply (bool_decide_unpack _); vm_compute; exact I. }
split; [exact Hwf|].
destruct (remove_duplicates_first_occurrences str_hashable
            [raw_alex; raw_alex_swapped; raw_manager; raw_alex] Hwf)
  as (out & -> & -> & _).
- repeat apply Forall_cons_2; try apply Forall_nil_2;
    unfold values_hashable; repeat apply Forall_cons_2; try apply Forall_nil_2;
    reflexivity.
- vm_compute. reflexivity.
Defined.

(** * Claims about validation of the extractor output *)




(** * Further properties: the query path *)

(** ** [extract_entities] *)

Lemma find_tool_input_first pre t post :
  Forall (λ b, is_extract_tool b = false) pre →
  tool_name t = "extract_entities" →
  find_tool_input (pre ++ ToolUseBlock t :: post) = Some (tool_input t).
Proof.
intros Hpre Ht. induction Hpre as [|b pre Hb _ IH]; simpl.
- by rewrite Ht.
- destruct b as [s|t']; [done|]. simpl in Hb. by rewrite Hb.
Qed.

Lemma find_tool_input_none content :
  Forall (λ b, is_extract_tool b = false) content →
  find_tool_input content = None.
Proof.
induction 1 as [|b content Hb _ IH]; simpl; [done|].
destruct b as [s|t]; [done|]. simpl in Hb. by rewrite Hb.
Qed.

Lemma extract_entities_run ver model text w :
  extract_entities ver model text w
  = (match find_tool_input (model text) with
     | Some json_entities =>
         if truthy_list json_entities
         then match parse_obj ver json_entities with
              | Returns parsed => Returns (Some parsed)
              | Raises e => Raises e
              end
         else Returns None
     | None => Returns None
     end,
     mkWorld (heap w) (requests w ++ [text])).
Proof.
unfold extract_entities, bind, converse, lift, ret. simpl.
destruct (find_tool_input (model text)) as [json|]; [|done].
destruct (truthy_list json); [|done].
by destruct (parse_obj ver json).
Qed.

(** X1.  Whatever the model replies, and whether the call returns or
    raises, [extract_entities] sends exactly one request, the text it was
    given, and leaves the heap as it was. *)
Theorem extract_entities_one_request ver model text w :
  (extract_entities ver model text w).2
  = mkWorld (heap w) (requests w ++ [text]).
Proof. by rewrite extract_entities_run. Qed.

(** X2.  The tool call that counts is the first one named
    [extract_entities]: text blocks and other tool calls before it are
    skipped, everything after it is ignored, and the outcome is that of
    validating its input (when the input is not empty). *)
Theorem extract_entities_first_tool_call ver model text w pre t post :
  model text = pre ++ ToolUseBlock t :: post →
  Forall (λ b, is_extract_tool b = false) pre →
  tool_name t = "extract_entities" →
  tool_input t ≠ [] →
  (extract_entities ver model text w).1
  = match parse_obj ver (tool_input t) with
    | Returns parsed => Returns (Some parsed)
    | Raises e => Raises e
    end.
Proof.
intros Hreply Hpre Ht Hne. rewrite extract_entities_run, Hreply. simpl.
rewrite find_tool_input_first by done.
by destruct (tool_input t).
Qed.

Lemma extract_entities_first_tool_call_witness :
  (extract_entities V2
     (λ _, [TextBlock "Looking."; ToolUseBlock (mkToolUse "search" []);
            ToolUseBlock (mkToolUse "extract_entities"
                            [("entities", [raw_with_number])]);
            ToolUseBlock (mkToolUse "extract_entities"
                            [("entities", [raw_with_department])])])
     "Hi" world0).1
  = match parse_obj V2 [("entities", [raw_with_number])] with
    | Returns parsed => Returns (Some parsed)
    | Raises e => Raises e
    end.
Proof.
apply (extract_entities_first_tool_call V2 _ "Hi" world0
         [TextBlock "Looking."; ToolUseBlock (mkToolUse "search" [])]
         (mkToolUse "extract_entities" [("entities", [raw_with_number])])
         [ToolUseBlock (mkToolUse "extract_entities"
                          [("entities", [raw_with_department])])]).
- reflexivity.
- repeat apply Forall_cons_2; try apply Forall_nil_2; reflexivity.
- reflexivity.
- discriminate.
Defined.

(** X3.  When the reply holds no tool call named [extract_entities], or
    when the input of the first such call is empty, [extract_entities]
    returns [None] and raises nothing; the empty input is not validated and
    later tool calls are not looked at. *)
Theorem extract_entities_nothing_to_parse ver model text w :
  (Forall (λ b, is_extract_tool b = false) (model text) →
   (extract_entities ver model text w).1 = Returns None)
  ∧ ∀ pre t post,
      model text = pre ++ ToolUseBlock t :: post →
      Forall (λ b, is_extract_tool b = false) pre →
      tool_name t = "extract_entities" →
      tool_input t = [] →
      (extract_entities ver model text w).1 = Returns None.
Proof.
split.
- intros Hnone. rewrite extract_entities_run. simpl.
  by rewrite find_tool_input_none.
- intros pre t post Hreply Hpre Ht Hempty.
  rewrite extract_entities_run, Hreply. simpl.
  rewrite find_tool_input_first by done. by rewrite Hempty.
Qed.

Lemma extract_entities_nothing_to_parse_witness :
  (extract_entities V2
     (λ _, [ToolUseBlock (mkToolUse "extract_entities" []);
            ToolUseBlock (mkToolUse "extract_entities"
                            [("entities", [raw_with_department])])])
     "Hi" world0).1
  = Returns None.
Proof.
apply (proj2 (extract_entities_nothing_to_parse V2 _ "Hi" world0)
         [] (mkToolUse "extract_entities" [])
         [ToolUseBlock (mkToolUse "extract_entities"
                          [("entities", [raw_with_department])])]);
  try reflexivity.
apply Forall_nil_2.
Defined.

(** ** [process_query] *)

Section process_query_facts.
Context (ver : pydantic_version) (model : string → list ContentBlock).
Context (kb_id agent_id agent_alias_id : string).

Lemma process_query_run agents_invoke text w :
  process_query ver model kb_id agent_id agent_alias_id agents_invoke text w
  = match (extract_entities ver model text w).1 with
    | Raises e => (Raises e, mkWorld (heap w) (requests w ++ [text]))
    | Returns x =>
        agents_invoke
          (mkInvocation text agent_id agent_alias_id
             (mkSessionState kb_id (filter_of x)))
          (construct_metadata_filter x
             (mkWorld (heap w) (requests w ++ [text]))).2
    end.
Proof.
unfold process_query. unfold bind at 1.
destruct (extract_entities ver model text w) as [o w1] eqn:Hx.
pose proof (extract_entities_run ver model text w) as Hw.
rewrite Hx in Hw. injection Hw as Ho ->. clear Ho. simpl.
destruct o as [x|e]; [|done].
unfold bind at 1.
destruct (construct_metadata_filter_run x
            (mkWorld (heap w) (requests w ++ [text]))) as (w2 & Hrun & _).
rewrite Hrun. simpl. unfold bind, ret.
by destruct (agents_invoke _ w2) as [[r|e] w3].
Qed.


(** X4.  When [extract_entities] raises, [process_query] raises the same
    exception and the agent is not invoked: whatever the agent helper would
    do, the world holds the one extraction request and nothing else new. *)
Theorem process_query_extraction_error agents_invoke text w e :
  (extract_entities ver model text w).1 = Raises e →
  process_query ver model kb_id agent_id agent_alias_id agents_invoke text w
  = (Raises e, mkWorld (heap w) (requests w ++ [text])).
Proof. intros He. by rewrite process_query_run, He. Qed.


(** X6.  When the reply holds no tool call named [extract_entities], the
    agent is still invoked, with no filter ([None]) in the session state. *)
Theorem process_query_without_tool_call agents_invoke text w :
  Forall (λ b, is_extract_tool b = false) (model text) →
  process_query ver model kb_id agent_id agent_alias_id agents_invoke text w
  = agents_invoke
      (mkInvocation text agent_id agent_alias_id (mkSessionState kb_id None))
      (mkWorld (heap w) (requests w ++ [text])).
Proof.
intros Hnone. rewrite process_query_run, extract_entities_run. simpl.
by rewrite find_tool_input_none.
Qed.
End process_query_facts.

Lemma process_query_extraction_error_witness :
  (extract_entities V2 (tool_reply [raw_with_list]) "Hi" world0).1
  = Raises TypeError
  ∧ process_query V2 (tool_reply [raw_with_list]) "kb" "agent" "alias"
      echo_agent "Hi" world0
    = (Raises TypeError, mkWorld ∅ ["Hi"]).
Proof.
assert ((extract_entities V2 (tool_reply [raw_with_list]) "Hi" world0).1
        = Raises TypeError) as He by (vm_compute; reflexivity).
split; [exact He|].
apply (process_query_extraction_error V2 (tool_reply [raw_with_list])
         "kb" "agent" "alias" echo_agent "Hi" world0 TypeError He).
Defined.


Lemma process_query_without_tool_call_witness :
  process_query V1 (λ _, [TextBlock "Hello."]) "kb" "agent" "alias"
    echo_agent "Hi" world0
  = echo_agent
      (mkInvocation "Hi" "agent" "alias" (mkSessionState "kb" None))
      (mkWorld (heap world0) (requests world0 ++ ["Hi"])).
Proof.
apply (process_query_without_tool_call V1 (λ _, [TextBlock "Hello."])
         "kb" "agent" "alias" echo_agent "Hi" world0).
repeat apply Forall_cons_2; try apply Forall_nil_2; reflexivity.
Defined.

(** * Further properties: deduplication and validation *)

Section remove_duplicates_more.
Context {V : Type} `{Countable V} (hashable : V → bool).
Implicit Types (d : pydict V) (entities rest earlier : list (pydict V)).

#[local] Instance values_hashable_dec d : Decision (values_hashable hashable d).
Proof. unfold values_hashable. apply _. Defined.

Lemma remove_duplicates_loop_returns entities :
  ∀ unique_entities (seen : gset (list (string * V))),
    Forall (values_hashable hashable) entities →
    ∃ out, remove_duplicates_loop hashable entities unique_entities seen
           = Returns out.
Proof.
induction entities as [|d rest IH]; intros uniq seen Hh; simpl.
- by eexists.
- apply Forall_cons in Hh as [Hd Hh].
  rewrite tuple_hashable_sorted by done.
  case_decide; by apply IH.
Qed.

Lemma first_occurrences_length earlier entities :
  length (first_occurrences earlier entities) ≤ length entities.
Proof. apply sublist_length, first_occurrences_sublist. Qed.

(** A list without duplicates is kept whole. *)
Lemma first_occurrences_id entities :
  ∀ earlier,
    (∀ i d, entities !! i = Some d →
            ¬ Exists (same_fields d) (earlier ++ take i entities)) →
    first_occurrences earlier entities = entities.
Proof.
induction entities as [|a rest IH]; intros earlier Hnew; simpl; [done|].
rewrite decide_False.
- f_equal. apply IH. intros i d Hi.
  rewrite <- app_assoc. apply (Hnew (S i) d Hi).
- pose proof (Hnew 0 a eq_refl) as H0. simpl in H0.
  by rewrite app_nil_r in H0.
Qed.

Lemma sorted_items_idemp d :
  dict_wf d → sorted_items (sorted_items d) = sorted_items d.
Proof.
intros Hwf. apply sorted_items_eq_iff; [by apply sorted_items_wf|done|].
apply sorted_items_same_fields.
Qed.

(** X7.  [remove_duplicates] is idempotent: run on the list it returned,
    it returns that list unchanged. *)
Theorem remove_duplicates_idempotent entities out :
  Forall dict_wf entities →
  Forall (values_hashable hashable) entities →
  remove_duplicates hashable entities = Returns out →
  remove_duplicates hashable out = Returns out.
Proof.
intros Hwf Hh Hout.
rewrite remove_duplicates_returns in Hout by done.
injection Hout as <-.
set (kept := first_occurrences [] entities).
assert (Forall dict_wf kept) as Hwfk by by apply Forall_first_occurrences.
rewrite remove_duplicates_returns.
- rewrite first_occurrences_id.
  + f_equal. rewrite <- list_fmap_compose. apply Forall_fmap_ext_1.
    eapply Forall_impl; [exact Hwfk|]. intros d Hd. by apply sorted_items_idemp.
  + intros i d Hi Hex. simpl in Hex.
    apply list_lookup_fmap_Some_1 in Hi as (a & -> & Hi).
    apply Exists_exists in Hex as (e & He & Hsame).
    apply list_elem_of_lookup_1 in He as [j Hj].
    apply lookup_take_Some in Hj as [Hj Hlt].
    apply list_lookup_fmap_Some_1 in Hj as (b & -> & Hj).
    assert (i = j); [|lia].
    apply (first_occurrences_distinct [] entities i j a b Hi Hj).
    etrans; [symmetry; apply sorted_items_same_fields|].
    etrans; [apply Hsame|apply sorted_items_same_fields].
- apply Forall_fmap. eapply Forall_impl; [exact Hwfk|].
  intros d Hd. by apply sorted_items_wf.
- apply Forall_sorted_first_occurrences; [|done].
  apply values_hashable_sorted.
Qed.

(** X8.  The only exception [remove_duplicates] raises is [TypeError], and
    it raises it exactly when some record holds a value that cannot be
    hashed; otherwise it returns. *)
Theorem remove_duplicates_raises_iff entities :
  (∀ e, remove_duplicates hashable entities = Raises e
        ↔ e = TypeError
          ∧ Exists (λ d, ¬ values_hashable hashable d) entities)
  ∧ (Forall (values_hashable hashable) entities →
     ∃ out, remove_duplicates hashable entities = Returns out).
Proof.
split.
- intros e. split.
  + intros Hraise.
    destruct (Forall_Exists_dec (values_hashable hashable)
                (λ d, ¬ values_hashable hashable d)
                (λ d, decide (values_hashable hashable d)) entities)
      as [Hall|Hex].
    * destruct (remove_duplicates_loop_returns entities [] ∅ Hall) as [out Hout].
      unfold remove_duplicates in Hraise. congruence.
    * split; [|done]. rewrite remove_duplicates_raises in Hraise by done.
      congruence.
  + intros [-> Hex]. by apply remove_duplicates_raises.
- apply remove_duplicates_loop_returns.
Qed.

(** X9.  The first record of the input is always kept and comes first in
    the result, its items sorted by key; the result is never longer than
    the input. *)
Theorem remove_duplicates_keeps_first d rest :
  Forall dict_wf (d :: rest) →
  Forall (values_hashable hashable) (d :: rest) →
  ∃ out',
    remove_duplicates hashable (d :: rest) = Returns (sorted_items d :: out')
    ∧ same_fields (sorted_items d) d
    ∧ length out' ≤ length rest.
Proof.
intros Hwf Hh. rewrite remove_duplicates_returns by done.
assert (first_occurrences [] (d :: rest) = d :: first_occurrences [d] rest)
  as ->.
{ cbn [first_occurrences app].
  destruct (decide (Exists (same_fields d) [])) as [Hex|_]; [|done].
  by apply Exists_nil in Hex. }
rewrite fmap_cons. eexists. split; [reflexivity|]. split; [apply sorted_items_same_fields|].
rewrite length_fmap. apply first_occurrences_length.
Qed.
End remove_duplicates_more.

Lemma remove_duplicates_idempotent_witness :
  remove_duplicates str_hashable
    [raw_alex_swapped; raw_alex; raw_manager] = Returns [raw_alex; raw_manager]
  ∧ remove_duplicates str_hashable [raw_alex; raw_manager]
    = Returns [raw_alex; raw_manager].
Proof.
assert (remove_duplicates str_hashable
          [raw_alex_swapped; raw_alex; raw_manager]
        = Returns [raw_alex; raw_manager]) as Hout by (vm_compute; reflexivity).
split; [exact Hout|].
apply (remove_duplicates_idempotent str_hashable
         [raw_alex_swapped; raw_alex; raw_manager] [raw_alex; raw_manager]).
- repeat apply Forall_cons_2; try apply Forall_nil_2;
    unfold dict_wf; apply (bool_decide_unpack _); vm_compute; exact I.
- repeat apply Forall_cons_2; try apply Forall_nil_2;
    unfold values_hashable; repeat apply Forall_cons_2; try apply Forall_nil_2;
    reflexivity.
- exact Hout.
Defined.

Lemma remove_duplicates_raises_iff_witness :
  remove_duplicates raw_hashable [raw_with_number; raw_with_list]
  = Raises TypeError.
Proof.
apply (proj1 (remove_duplicates_raises_iff raw_hashable
                [raw_with_number; raw_with_list])).
split; [reflexivity|].
apply Exists_cons. right. apply Exists_cons. left. intros Hh.
apply Forall_cons in Hh as [_ Hh]. apply Forall_cons in Hh as [Hh _].
discriminate Hh.
Defined.

Lemma remove_duplicates_keeps_first_witness :
  ∃ out',
    remove_duplicates str_hashable [raw_alex_swapped; raw_manager; raw_alex]
    = Returns (sorted_items raw_alex_swapped :: out')
    ∧ same_fields (sorted_items raw_alex_swapped) raw_alex_swapped
    ∧ length out' ≤ 2.
Proof.
apply (remove_duplicates_keeps_first str_hashable
         raw_alex_swapped [raw_manager; raw_alex]).
- repeat apply Forall_cons_2; try apply Forall_nil_2;
    unfold dict_wf; apply (bool_decide_unpack _); vm_compute; exact I.
- repeat apply Forall_cons_2; try apply Forall_nil_2;
    unfold values_hashable; repeat apply Forall_cons_2; try apply Forall_nil_2;
    reflexivity.
Defined.

(** ** Records that differ in an unrecognised field *)





(** * Further properties: the sample documents *)

(** ** [text_to_pdf] *)

Section text_to_pdf_facts.
Context (width height : Z) (simpleSplit : string → Z → list string).

Lemma drawn_lines_draw_lines lines :
  ∀ y, drawn_lines (draw_lines height lines y) = lines.
Proof.
induction lines as [|line rest IH]; intros y; simpl; [done|].
destruct (y <? 40)%Z; simpl; unfold drawn_lines in *; by rewrite IH.
Qed.

Lemma draw_lines_ops lines :
  ∀ y op, op ∈ draw_lines height lines y →
          op = ShowPage ∨ ∃ y' line, op = DrawString 40 y' line.
Proof.
induction lines as [|line rest IH]; intros y op; simpl.
- by intros ?%elem_of_nil.
- destruct (y <? 40)%Z; simpl; rewrite ?elem_of_cons;
    intros Hop; destruct_or?; eauto.
Qed.

(** X11.  Every line the splitter returns is drawn exactly once, in order,
    at 40 points from the left edge; the canvas is saved once, after the
    last line. *)
Theorem text_to_pdf_draws_every_line text filename file_path :
  ∃ body,
    (text_to_pdf width height simpleSplit text filename file_path).2
    = body ++ [Save]
    ∧ (Save ∉ body)
    ∧ drawn_lines body = simpleSplit text (width - 80)%Z
    ∧ ∀ x y line, DrawString x y line ∈ body → x = 40%Z.
Proof.
unfold text_to_pdf. simpl. eexists. split; [reflexivity|].
split; [|split].
- intros Hin. by apply draw_lines_ops in Hin as [?|(? & ? & ?)].
- apply drawn_lines_draw_lines.
- intros x y line Hin.
  apply draw_lines_ops in Hin as [?|(? & ? & ?)]; congruence.
Qed.

Lemma draw_lines_margins lines :
  (80 ≤ height)%Z →
  ∀ y0, (y0 ≤ height - 40)%Z →
        ∀ x y line, DrawString x y line ∈ draw_lines height lines y0 →
                    (40 ≤ y ≤ height - 40)%Z.
Proof.
intros Hh. induction lines as [|l rest IH]; intros y0 Hy0 x y line; simpl.
- by intros ?%elem_of_nil.
- destruct (Z.ltb_spec y0 40); simpl; rewrite ?elem_of_cons.
  + intros [?|[[= -> -> ->]|Hin]]; [done|lia|].
    apply (IH (height - 40 - 15)%Z) in Hin; lia.
  + intros [[= -> -> ->]|Hin]; [lia|].
    apply (IH (y0 - 15)%Z) in Hin; lia.
Qed.

Lemma draw_lines_small_page lines :
  (height < 80)%Z →
  ∀ y0, (y0 < 40)%Z →
        draw_lines height lines y0
        = lines ≫= (λ line, [ShowPage; DrawString 40 (height - 40) line]).
Proof.
intros Hh. induction lines as [|l rest IH]; intros y0 Hy0; simpl; [done|].
destruct (Z.ltb_spec y0 40); [|lia]. simpl.
rewrite IH by lia. done.
Qed.

(** X12.  On a page at least 80 points high every line is drawn between
    the margins, no lower than 40 points and no higher than 40 points
    below the top.  On a lower page each line is drawn on a page of its
    own, below the bottom margin, and the first page stays empty. *)
Theorem text_to_pdf_margins text filename file_path :
  ((80 ≤ height)%Z →
   ∀ x y line,
     DrawString x y line
     ∈ (text_to_pdf width height simpleSplit text filename file_path).2 →
     (40 ≤ y ≤ height - 40)%Z)
  ∧ ((height < 80)%Z →
     (text_to_pdf width height simpleSplit text filename file_path).2
     = (simpleSplit text (width - 80)%Z
        ≫= (λ line, [ShowPage; DrawString 40 (height - 40) line]))
       ++ [Save]).
Proof.
unfold text_to_pdf. simpl. split.
- intros Hh x y line [Hin|Hin%list_elem_of_singleton]%elem_of_app; [|done].
  by apply (draw_lines_margins _ Hh (height - 40)%Z) in Hin.
- intros Hh. f_equal. apply draw_lines_small_page; lia.
Qed.

Lemma new_page_iff k :
  (80 ≤ height)%Z →
  (height - 40 - 15 * k <? 40)%Z = true ↔ (lines_per_page height ≤ k)%Z.
Proof.
intros Hh. unfold lines_per_page. rewrite Z.ltb_lt.
pose proof (Z.div_mod (height - 80) 15 ltac:(lia)) as Hdm.
pose proof (Z.mod_pos_bound (height - 80) 15 ltac:(lia)) as Hr.
lia.
Qed.

Lemma lines_per_page_pos : (80 ≤ height)%Z → (1 ≤ lines_per_page height)%Z.
Proof.
intros Hh. unfold lines_per_page.
pose proof (Z.div_pos (height - 80) 15 ltac:(lia) ltac:(lia)). lia.
Qed.

Lemma div_full_page P m :
  (1 ≤ P)%Z → ((P + m) / P = 1 + m / P)%Z.
Proof.
intros HP. replace (P + m)%Z with (1 * P + m)%Z by lia.
by rewrite Z.div_add_l by lia.
Qed.

Lemma page_breaks_cons op ops :
  page_breaks (op :: ops)
  = (if is_show_page op then 1 else 0) + page_breaks ops.
Proof. unfold page_breaks. simpl. by destruct (is_show_page op). Qed.

Lemma page_breaks_draw_lines lines :
  (80 ≤ height)%Z →
  lines ≠ [] →
  ∀ k, (0 ≤ k ≤ lines_per_page height)%Z →
       Z.of_nat (page_breaks (draw_lines height lines (height - 40 - 15 * k)))
       = ((k + Z.of_nat (length lines) - 1) / lines_per_page height)%Z.
Proof.
intros Hh. pose proof (lines_per_page_pos Hh) as HP.
induction lines as [|l rest IH]; intros Hne k Hk; [done|].
cbn [draw_lines].
destruct (height - 40 - 15 * k <? 40)%Z eqn:Hnew.
- apply new_page_iff in Hnew; [|done].
  assert (k = lines_per_page height) as -> by lia.
  cbn [app]. rewrite !page_breaks_cons. cbn [is_show_page].
  destruct rest as [|l' rest'].
  + cbn [draw_lines length].
    replace (lines_per_page height + Z.of_nat 1 - 1)%Z
      with (lines_per_page height + 0)%Z by lia.
    rewrite div_full_page by done. by rewrite Z.div_0_l by lia.
  + replace (height - 40 - 15)%Z with (height - 40 - 15 * 1)%Z by lia.
    rewrite !Nat2Z.inj_add, IH by (done || lia).
    replace (lines_per_page height + Z.of_nat (length (l :: l' :: rest')) - 1)%Z
      with (lines_per_page height + (1 + Z.of_nat (length (l' :: rest')) - 1))%Z
      by (cbn [length]; lia).
    rewrite div_full_page by done. lia.
- assert (k < lines_per_page height)%Z as Hlt.
  { destruct (Z.le_gt_cases (lines_per_page height) k) as [Hle|]; [|lia].
    apply new_page_iff in Hle; [congruence|done]. }
  cbn [app]. rewrite !page_breaks_cons. cbn [is_show_page].
  destruct rest as [|l' rest'].
  + cbn [draw_lines length].
    replace (k + Z.of_nat 1 - 1)%Z with k by lia.
    by rewrite Z.div_small by lia.
  + replace (height - 40 - 15 * k - 15)%Z
      with (height - 40 - 15 * (k + 1))%Z by lia.
    rewrite Nat2Z.inj_add, IH by (done || lia).
    cbn [length]. rewrite !Nat2Z.inj_succ.
    replace (k + Z.succ (Z.succ (Z.of_nat (length rest'))) - 1)%Z
      with (k + 1 + Z.succ (Z.of_nat (length rest')) - 1)%Z by lia.
    lia.
Qed.

Lemma page_breaks_app_save ops : page_breaks (ops ++ [Save]) = page_breaks ops.
Proof.
unfold page_breaks. rewrite List.filter_app, length_app. simpl. lia.
Qed.

(** X13.  On a page at least 80 points high a page holds
    [(height - 80) / 15 + 1] lines (48 on letter), so a text of [n > 0]
    lines takes [(n - 1) / lines_per_page] page breaks, and a text without
    lines takes none. *)
Theorem text_to_pdf_page_breaks text filename file_path :
  (80 ≤ height)%Z →
  Z.of_nat (page_breaks
              (text_to_pdf width height simpleSplit text filename file_path).2)
  = match simpleSplit text (width - 80)%Z with
    | [] => 0%Z
    | lines =>
        ((Z.of_nat (length lines) - 1) / lines_per_page height)%Z
    end.
Proof.
intros Hh. unfold text_to_pdf. cbn [snd]. rewrite page_breaks_app_save.
destruct (simpleSplit text (width - 80)%Z) as [|l rest] eqn:Hlines; [done|].
replace (height - 40)%Z with (height - 40 - 15 * 0)%Z by lia.
rewrite page_breaks_draw_lines; [f_equal; lia|done|done|].
pose proof (lines_per_page_pos Hh). lia.
Qed.
End text_to_pdf_facts.

Lemma text_to_pdf_margins_witness :
  ((80 ≤ 792)%Z
   ∧ ∀ x y line,
       DrawString x y line
       ∈ (text_to_pdf 612 792 (λ text _, replicate 49 text) "row" "f.pdf" "dir").2 →
       (40 ≤ y ≤ 792 - 40)%Z)
  ∧ (60 < 80)%Z
  ∧ (text_to_pdf 612 60 (λ text _, replicate 2 text) "row" "f.pdf" "dir").2
    = [ShowPage; DrawString 40 20 "row"; ShowPage; DrawString 40 20 "row"; Save].
Proof.
split; [split; [lia|]|split; [lia|]].
- apply (proj1 (text_to_pdf_margins 612 792 (λ text _, replicate 49 text)
                  "row" "f.pdf" "dir")).
  lia.
- rewrite (proj2 (text_to_pdf_margins 612 60 (λ text _, replicate 2 text)
                    "row" "f.pdf" "dir")) by lia.
  reflexivity.
Defined.

Lemma text_to_pdf_page_breaks_witness :
  (80 ≤ 792)%Z
  ∧ Z.of_nat (page_breaks
                (text_to_pdf 612 792 (λ text _, replicate 49 text)
                   "row" "f.pdf" "dir").2)
    = 1%Z.
Proof.
split; [lia|].
rewrite (text_to_pdf_page_breaks 612 792 (λ text _, replicate 49 text)
           "row" "f.pdf" "dir"); [|lia].
reflexivity.
Defined.

(** ** [upload_folder_to_s3] *)

Lemma prefix_occurs sub s :
  String.prefix sub s = true ↔ ∃ after, s = sub +:+ after.
Proof.
revert sub. induction s as [|c s IH]; intros [|a sub]; simpl.
- split; [by exists ""|done].
- split; [done|]. by intros [after [=]].
- split; [by eexists|done].
- destruct (Ascii.ascii_dec a c) as [->|Hne].
  + rewrite IH. split.
    * intros [after ->]. by exists after.
    * intros [after [= ->]]. by exists after.
  + split; [done|]. intros [after [= ? _]]. by destruct Hne.
Qed.

Lemma contains_occurs sub s :
  contains sub s = true ↔ occurs_in sub s.
Proof.
unfold occurs_in. induction s as [|c s IH]; cbn [contains].
- rewrite orb_false_r, prefix_occurs. split.
  + intros [after ->]. by exists "", after.
  + intros (before & after & Heq). destruct before as [|b before].
    * by exists after.
    * discriminate Heq.
- rewrite orb_true_iff, prefix_occurs, IH. split.
  + intros [[after ->]|(before & after & ->)].
    * by exists "", after.
    * by exists (String c before), after.
  + intros (before & after & Heq). destruct before as [|b before].
    * left. by exists after.
    * right. injection Heq as -> ->. by exists before, after.
Qed.

#[global] Instance occurs_in_dec sub s : Decision (occurs_in sub s).
Proof.
destruct (contains sub s) eqn:Hc.
- left. by apply contains_occurs.
- right. intros Ho%contains_occurs. congruence.
Defined.

Section upload_folder_to_s3_facts.
Context (listdir : string → list string).
Context (local_path bucket_name s3_key : string).

Lemma upload_files_filter filenames :
  upload_files filenames local_path bucket_name s3_key
  = (λ filename, mkS3Upload (local_path +:+ filename) bucket_name
                            (s3_key +:+ "/" +:+ filename))
    <$> filter (λ filename, ¬ occurs_in ".ipynb" filename) filenames.
Proof.
induction filenames as [|f rest IH]; [done|].
cbn [upload_files]. destruct (contains ".ipynb" f) eqn:Hc.
- rewrite filter_cons_False; [done|].
  intros Hn. apply Hn. by apply contains_occurs.
- rewrite filter_cons_True.
  + by rewrite fmap_cons, IH.
  + intros Ho%contains_occurs. congruence.
Qed.

(** X14.  The files uploaded are the names in the folder in which
    [.ipynb] occurs nowhere (not only at the end), in the order of the
    listing; each goes from [local_path] followed at once by the name to
    the key [s3_key/name] of the bucket. *)
Theorem upload_folder_to_s3_skips_notebooks :
  upload_folder_to_s3 listdir local_path bucket_name s3_key
  = (λ filename, mkS3Upload (local_path +:+ filename) bucket_name
                            (s3_key +:+ "/" +:+ filename))
    <$> filter (λ filename, ¬ occurs_in ".ipynb" filename) (listdir local_path).
Proof. apply upload_files_filter. Qed.

(** X15.  When the names in the folder are pairwise distinct, so are the
    keys uploaded to: no upload overwrites another. *)
Theorem upload_folder_to_s3_distinct_keys :
  NoDup (listdir local_path) →
  NoDup (Key <$> upload_folder_to_s3 listdir local_path bucket_name s3_key).
Proof.
intros Hnd. unfold upload_folder_to_s3.
rewrite upload_files_filter, <- list_fmap_compose.
apply NoDup_fmap_2_strong; [|by apply NoDup_filter].
intros f1 f2 _ _ Heq. simpl in Heq.
by apply (inj (String.append s3_key)), (inj (String.append "/")) in Heq.
Qed.
End upload_folder_to_s3_facts.

Lemma upload_folder_to_s3_distinct_keys_witness :
  NoDup ["finance-0"; "finance-0.metadata.json"; ".ipynb_checkpoints"]
  ∧ NoDup (Key <$> upload_folder_to_s3
                     (λ _, ["finance-0"; "finance-0.metadata.json";
                            ".ipynb_checkpoints"])
                     "sample_documents/finance/" "bucket" "finance").
Proof.
assert (NoDup ["finance-0"; "finance-0.metadata.json"; ".ipynb_checkpoints"])
  as Hnd by (apply (bool_decide_unpack _); vm_compute; exact I).
split; [exact Hnd|].
apply (upload_folder_to_s3_distinct_keys
         (λ _, ["finance-0"; "finance-0.metadata.json"; ".ipynb_checkpoints"])
         "sample_documents/finance/" "bucket" "finance" Hnd).
Defined.
